(** * Wide & Deep recommender: a shallow embedding of
    [recommenders/models/wide_deep/wide_deep_utils.py]

    The development models [WideAndDeepHyperParams], the constructor
    [WideAndDeepModel.__init__] and [WideAndDeepModel.forward].

    - Index tensors are signed 64-bit integer tensors: their elements are
      [Z] values and the arithmetic on them wraps around ([wrap64]).
    - Floating-point scalars are kept abstract (class [Scalar]): every
      definition and theorem is generic in the scalar type and in its
      operations, so nothing here depends on rounding.
    - The random generator of the tensor framework is an explicit state
      (class [Generator]); exceptions are values of type [error].
    - [forward] runs in a state-and-error monad over the module state (the
      model object together with the generator). *)

From stdpp Require Import base option list gmap strings.
From Stdlib Require Import ZArith QArith Qabs Ascii Lia.

Open Scope Z_scope.

(** ** Exceptions and fallible results *)

Inductive error : Type :=
  | IndexError                 (* embedding index out of range *)
  | KeyError (k : string)      (* missing dictionary key *)
  | TypeError                  (* a non-tensor where a tensor is expected *)
  | ValueError                 (* dropout probability outside [0, 1] *)
  | ZeroDivisionError          (* integer remainder by zero *)
  | OverflowError              (* a Python int that does not fit int64 *)
  | ShapeError                 (* RuntimeError: tensor sizes do not match *)
  | RuntimeError.              (* any other RuntimeError of the framework *)

Inductive result (A : Type) : Type :=
  | Ok (a : A)
  | Raise (e : error).
Arguments Ok {A} a.
Arguments Raise {A} e.

Definition rbind {A B} (r : result A) (k : A -> result B) : result B :=
  match r with
  | Ok a => k a
  | Raise e => Raise e
  end.

Notation "'let?' x ':=' c1 'in' c2" := (rbind c1 (fun x => c2))
  (at level 10, x pattern, c1 at level 100, c2 at level 200).

(** Left-to-right traversal that stops at the first exception, as a Python
    list comprehension or an element-wise kernel does. *)
Fixpoint traverse {A B} (f : A -> result B) (l : list A) : result (list B) :=
  match l with
  | [] => Ok []
  | a :: l' =>
      let? b := f a in
      let? bs := traverse f l' in
      Ok (b :: bs)
  end.

(** ** State and error monad *)

Definition M (S A : Type) : Type := S -> result A * S.

Definition ret {S A} (a : A) : M S A := fun s => (Ok a, s).
Definition raise {S A} (e : error) : M S A := fun s => (Raise e, s).
Definition lift {S A} (r : result A) : M S A := fun s => (r, s).
Definition gets {S A} (f : S -> A) : M S A := fun s => (Ok (f s), s).
Definition bind {S A B} (c : M S A) (k : A -> M S B) : M S B :=
  fun s =>
    match c s with
    | (Ok a, s') => k a s'
    | (Raise e, s') => (Raise e, s')
    end.

Notation "'let*' x ':=' c1 'in' c2" := (bind c1 (fun x => c2))
  (at level 10, x pattern, c1 at level 100, c2 at level 200).

Fixpoint replicateM {S A} (n : nat) (c : M S A) : M S (list A) :=
  match n with
  | O => ret []
  | S n' =>
      let* a := c in
      let* l := replicateM n' c in
      ret (a :: l)
  end.

Fixpoint traverseM {S A B} (f : A -> M S B) (l : list A) : M S (list B) :=
  match l with
  | [] => ret []
  | a :: l' =>
      let* b := f a in
      let* bs := traverseM f l' in
      ret (b :: bs)
  end.

(** ** Scalars and the random generator of the framework *)

Class Scalar (F : Type) : Type := {
  f0 : F;                       (* 0.0 *)
  f1 : F;                       (* 1.0 *)
  fadd : F -> F -> F;
  fsub : F -> F -> F;
  fmul : F -> F -> F;
  fdiv : F -> F -> F;
  feqb : F -> F -> bool;
  fltb : F -> F -> bool;
  frelu : F -> F;
  fsigmoid : F -> F;
  of_int : Z -> F;              (* integer to floating-point promotion *)
  rsqrt_fan : Z -> F            (* 1 / sqrt fan_in, 0 when fan_in = 0 *)
}.

Class Generator (F G : Type) : Type := {
  bernoulli : F -> G -> bool * G;       (* true with the given probability *)
  normal : G -> F * G;                  (* standard normal *)
  uniform : F -> F -> G -> F * G        (* uniform on [lo, hi] *)
}.

(** ** Signed 64-bit integers *)

Definition int64_min : Z := - 2 ^ 63.
Definition int64_max : Z := 2 ^ 63 - 1.

Definition in_int64 (z : Z) : bool := (int64_min <=? z) && (z <=? int64_max).

Definition wrap64 (z : Z) : Z := (z + 2 ^ 63) mod 2 ^ 64 - 2 ^ 63.

(** A Python int used as the scalar operand of an int64 tensor operation. *)
Definition to_int64 (z : Z) : result Z :=
  if in_int64 z then Ok z else Raise OverflowError.

(** ** Two-dimensional tensors *)

Record Tensor (A : Type) : Type := mkTensor {
  ncols : nat;
  rows : list (list A)
}.
Arguments mkTensor {A} ncols rows.
Arguments ncols {A} t.
Arguments rows {A} t.

Definition nrows {A} (t : Tensor A) : nat := length (rows t).
Definition numel {A} (t : Tensor A) : nat := (nrows t * ncols t)%nat.

(** Every row has the declared width. *)
Definition wf_tensor {A} (t : Tensor A) : Prop :=
  Forall (fun r => length r = ncols t) (rows t).

Definition tmap {A B} (f : A -> B) (t : Tensor A) : Tensor B :=
  mkTensor (ncols t) (map (map f) (rows t)).

(** [torch.cat(..., dim=1)] on two-dimensional tensors. *)
Definition cat2 {A} (x y : Tensor A) : result (Tensor A) :=
  if (nrows x =? nrows y)%nat
  then Ok (mkTensor (ncols x + ncols y) (zip_with app (rows x) (rows y)))
  else Raise ShapeError.

Fixpoint cat {A} (ts : list (Tensor A)) : result (Tensor A) :=
  match ts with
  | [] => Raise RuntimeError
  | [t] => Ok t
  | t :: ts' =>
      let? r := cat ts' in
      cat2 t r
  end.

(** [torch.remainder] of an int64 tensor by a Python int: the kernel raises
    on a zero divisor at each element, and the result takes the sign of the
    divisor (floor modulus), which is [Z.modulo]. *)
Definition remainder (xs : list Z) (d : Z) : result (list Z) :=
  let? d64 := to_int64 d in
  traverse (fun a => if d64 =? 0 then Raise ZeroDivisionError else Ok (a mod d64)) xs.

(** [tensor * python_int] and [tensor + tensor] on int64 tensors. *)
Definition mul_scalar (xs : list Z) (k : Z) : result (list Z) :=
  let? k64 := to_int64 k in
  Ok (map (fun a => wrap64 (a * k64)) xs).

Definition add_tensor (xs ys : list Z) : result (list Z) :=
  if (length xs =? length ys)%nat
  then Ok (zip_with (fun a b => wrap64 (a + b)) xs ys)
  else Raise ShapeError.

(** One row of a one-hot encoding: [n] entries, a 1 at position [i]. *)
Definition one_hot_row (n : nat) (i : Z) : list Z :=
  map (fun j => if Z.of_nat j =? i then 1 else 0) (seq 0 n).

Definition list_min (l : list Z) : Z := foldr Z.min (hd 0 l) l.
Definition list_max (l : list Z) : Z := foldr Z.max (hd 0 l) l.

(** [torch.nn.functional.one_hot(idx, num_classes)] on a one-dimensional
    int64 tensor. *)
Definition one_hot (idx : list Z) (num_classes : Z) : result (Tensor Z) :=
  match idx with
  | [] =>
      if num_classes <=? 0 then Raise RuntimeError
      else Ok (mkTensor (Z.to_nat num_classes) [])
  | _ :: _ =>
      if list_min idx <? 0 then Raise RuntimeError
      else
        let? n :=
          (if num_classes =? -1 then Ok (list_max idx + 1)
           else if list_max idx <? num_classes then Ok num_classes
           else Raise RuntimeError) in
        Ok (mkTensor (Z.to_nat n) (map (one_hot_row (Z.to_nat n)) idx))
  end.

(** Line 81 of the source:
    [(users*self.n_items + items) % self.hparams.crossed_feat_dim]. *)
Definition cross_product_idx (n_items crossed_feat_dim : Z) (users items : list Z)
  : result (list Z) :=
  let? scaled := mul_scalar users n_items in
  let? summed := add_tensor scaled items in
  remainder summed crossed_feat_dim.

Section Model.

Context {F G : Type} `{Scalar F} `{Generator F G}.

(** The names [nn.ModuleDict] accepts as keys: non-empty, without a dot, and
    distinct from the attributes of the container. The list of those
    attributes belongs to the framework and is left as a parameter. *)
Variable module_name_ok : string -> bool.

(** ** Hyper-parameters *)

Record WideAndDeepHyperParams : Type := mkHyperParams {
  user_dim : Z;
  item_dim : Z;
  crossed_feat_dim : Z;
  dnn_hidden_units : list Z;
  dnn_dropout : F;
  dnn_additional_embeddings_sizes : list (string * (Z * Z));
  dnn_cont_features : Z
}.

(** ** Layers *)

Record Embedding : Type := mkEmbedding {
  num_embeddings : Z;
  embedding_dim : Z;
  weight : Tensor F
}.

Inductive Layer : Type :=
  | Linear (in_features out_features : Z) (w : Tensor F) (b : list F)
  | Dropout (p : F) (training : bool)
  | ReLU
  | Sigmoid.

(** Embedding lookup: one table row per index; an index outside the table,
    negative ones included, raises. *)
Definition embedding_row (w : Tensor F) (i : Z) : result (list F) :=
  if (0 <=? i) && (i <? Z.of_nat (nrows w))
  then match rows w !! Z.to_nat i with
       | Some r => Ok r
       | None => Raise IndexError
       end
  else Raise IndexError.

Definition embedding (emb : Embedding) (idx : list Z) : result (Tensor F) :=
  let? rs := traverse (embedding_row (weight emb)) idx in
  Ok (mkTensor (ncols (weight emb)) rs).

(** [x @ w.T + b] *)
Definition dot (x w : list F) : F :=
  foldl (fun acc '(a, b) => fadd acc (fmul a b)) f0 (zip x w).

Definition linear (w : Tensor F) (b : list F) (x : Tensor F) : result (Tensor F) :=
  if (ncols x =? ncols w)%nat && (length b =? nrows w)%nat
  then Ok (mkTensor (nrows w)
             (map (fun r => zip_with fadd (map (dot r) (rows w)) b) (rows x)))
  else Raise ShapeError.

(** ** The model object and the module state *)

Record WideAndDeepModel : Type := mkModel {
  hparams : WideAndDeepHyperParams;
  n_users : Z;
  n_items : Z;
  users_emb : Embedding;
  items_emb : Embedding;
  additional_embs : list (string * Embedding);
  deep : list Layer;
  head : list Layer
}.

Record ModuleState : Type := mkState {
  self : WideAndDeepModel;
  generator : G
}.

Definition draw_bernoulli (p : F) : M ModuleState bool :=
  fun s =>
    let '(b, g) := bernoulli p (generator s) in
    (Ok b, mkState (self s) g).

(** [nn.Dropout]: the identity unless the layer is in training mode with a
    non-zero probability on a non-empty tensor; otherwise a fresh Bernoulli
    mask, scaled by [1 / (1 - p)], multiplies the input. *)
Definition dropout_row (p : F) (r : list F) : M ModuleState (list F) :=
  let* noise := replicateM (length r) (draw_bernoulli (fsub f1 p)) in
  ret (zip_with (fun x (keep : bool) =>
                   fmul x (fdiv (if keep then f1 else f0) (fsub f1 p))) r noise).

Definition dropout (p : F) (training : bool) (x : Tensor F) : M ModuleState (Tensor F) :=
  if fltb p f0 || fltb f1 p then raise ValueError
  else if negb training || feqb p f0 || (numel x =? 0)%nat then ret x
  else if feqb p f1 then ret (tmap (fun v => fmul v f0) x)
  else
    let* rs := traverseM (dropout_row p) (rows x) in
    ret (mkTensor (ncols x) rs).

Definition apply_layer (l : Layer) (x : Tensor F) : M ModuleState (Tensor F) :=
  match l with
  | Linear _ _ w b => lift (linear w b x)
  | Dropout p training => dropout p training x
  | ReLU => ret (tmap frelu x)
  | Sigmoid => ret (tmap fsigmoid x)
  end.

(** [nn.Sequential.forward]: the layers in order; the empty stack returns
    its input. *)
Fixpoint sequential (ls : list Layer) (x : Tensor F) : M ModuleState (Tensor F) :=
  match ls with
  | [] => ret x
  | l :: ls' =>
      let* y := apply_layer l x in
      sequential ls' y
  end.

(** ** [WideAndDeepModel.forward] *)

Definition lookup_key (d : gmap string (list Z)) (k : string) : result (list Z) :=
  match d !! k with
  | Some t => Ok t
  | None => Raise (KeyError k)
  end.

Definition forward
    (interactions : list (Z * Z))
    (additional_embeddings : gmap string (list Z))
    (continuous_features : option (Tensor F)) : M ModuleState (Tensor F) :=
  let* m := gets self in
  let users := map fst interactions in
  let items := map snd interactions in
  let* u := lift (embedding (users_emb m) users) in
  let* i := lift (embedding (items_emb m) items) in
  let* extra := lift (traverse
                  (fun '(k, emb) =>
                     let? t := lookup_key additional_embeddings k in
                     embedding emb t)
                  (additional_embs m)) in
  let* all_embed := lift (cat (u :: i :: extra)) in
  let* idx := lift (cross_product_idx (n_items m) (crossed_feat_dim (hparams m))
                      users items) in
  let* cross_product := lift (one_hot idx (crossed_feat_dim (hparams m))) in
  let* deep_input :=
    (if dnn_cont_features (hparams m) >? 0
     then match continuous_features with
          | Some c => lift (cat [c; all_embed])
          | None => raise TypeError
          end
     else ret all_embed) in
  let* deep_output := sequential (deep m) deep_input in
  let* wide_deep := lift (cat [tmap of_int cross_product; deep_output]) in
  sequential (head m) wide_deep.

(** ** [WideAndDeepModel.__init__] *)

Definition draw_normal : M G F :=
  fun g => let '(v, g') := normal g in (Ok v, g').

Definition draw_uniform (lo hi : F) : M G F :=
  fun g => let '(v, g') := uniform lo hi g in (Ok v, g').

Definition sample_tensor (r c : nat) (draw : M G F) : M G (Tensor F) :=
  let* rs := replicateM r (replicateM c draw) in
  ret (mkTensor c rs).

(** Allocating a tensor: a size is a non-negative int64. (Running out of
    memory is outside this model.) *)
Definition check_size (z : Z) : M G unit :=
  if z <? 0 then raise RuntimeError
  else if int64_max <? z then raise OverflowError
  else ret tt.

(** [nn.Embedding(num, dim)]: a table drawn from the standard normal. *)
Definition Embedding_new (num dim : Z) : M G Embedding :=
  let* _ := check_size num in
  let* _ := check_size dim in
  let* w := sample_tensor (Z.to_nat num) (Z.to_nat dim) draw_normal in
  ret (mkEmbedding num dim w).

(** [nn.init.uniform_(emb.weight, -1, 1)]: the table is refilled in place. *)
Definition uniform_ (lo hi : F) (emb : Embedding) : M G Embedding :=
  let* w := sample_tensor (nrows (weight emb)) (ncols (weight emb))
              (draw_uniform lo hi) in
  ret (mkEmbedding (num_embeddings emb) (embedding_dim emb) w).

(** [nn.Linear(inf, outf)]: weight of shape (outf, inf) and bias of length
    outf, both uniform on [-1/sqrt inf, 1/sqrt inf]. *)
Definition Linear_new (inf outf : Z) : M G Layer :=
  let* _ := check_size outf in
  let* _ := check_size inf in
  let bound := rsqrt_fan inf in
  let* w := sample_tensor (Z.to_nat outf) (Z.to_nat inf)
              (draw_uniform (fsub f0 bound) bound) in
  let* b := replicateM (Z.to_nat outf) (draw_uniform (fsub f0 bound) bound) in
  ret (Linear inf outf w b).

(** [nn.Dropout(p)]: rejects a probability outside [0, 1]; a new module is
    in training mode. *)
Definition Dropout_new (p : F) : M G Layer :=
  if fltb p f0 || fltb f1 p then raise ValueError
  else ret (Dropout p true).

(** The dictionary comprehension of lines 37-39, then the key checks of
    [nn.ModuleDict]. *)
Definition new_additional_embs (sizes : list (string * (Z * Z)))
  : M G (list (string * Embedding)) :=
  let* embs := traverseM (fun '(k, (num, dim)) =>
                            let* e := Embedding_new num dim in
                            ret (k, e)) sizes in
  let* _ := traverseM (fun '(k, _) =>
                         if module_name_ok k then ret tt
                         else raise (KeyError k)) embs in
  ret embs.

(** The loop of lines 43-45: accumulate the widths, refill every table. *)
Fixpoint init_additional_embs (embs : list (string * Embedding)) (total_emb_dim : Z)
  : M G (list (string * Embedding) * Z) :=
  match embs with
  | [] => ret ([], total_emb_dim)
  | (k, emb) :: embs' =>
      let total_emb_dim := total_emb_dim + embedding_dim emb in
      let* emb' := uniform_ (of_int (-1)) (of_int 1) emb in
      let* (rest, total) := init_additional_embs embs' total_emb_dim in
      ret ((k, emb') :: rest, total)
  end.

(** The loop of lines 49-53: for every hidden width a linear layer, a
    dropout and a ReLU, in this order. Returns the layers and the last
    value of [prev_output]. *)
Fixpoint build_deep (p : F) (prev_output : Z) (hidden_units : list Z)
  : M G (list Layer * Z) :=
  match hidden_units with
  | [] => ret ([], prev_output)
  | hu :: hidden_units' =>
      let* lin := Linear_new prev_output hu in
      let* drop := Dropout_new p in
      let* (layers, out) := build_deep p hu hidden_units' in
      ret (lin :: drop :: ReLU :: layers, out)
  end.

Definition __init__ (num_users num_items : Z) (hp : WideAndDeepHyperParams)
  : M G WideAndDeepModel :=
  let* ue := Embedding_new num_users (user_dim hp) in
  let* ie := Embedding_new num_items (item_dim hp) in
  let* embs := new_additional_embs (dnn_additional_embeddings_sizes hp) in
  let* (embs, total_emb_dim) :=
    init_additional_embs embs (user_dim hp + item_dim hp) in
  let* (layers, prev_output) :=
    build_deep (dnn_dropout hp) (dnn_cont_features hp + total_emb_dim)
      (dnn_hidden_units hp) in
  let exclusive_wide_input := crossed_feat_dim hp in
  let* out := Linear_new (exclusive_wide_input + prev_output) 1 in
  ret (mkModel hp num_users num_items ue ie embs layers [out; Sigmoid]).

(** [nn.Module.train(mode)] and [nn.Module.eval()]: the flag of every
    sub-module is set; only dropout reads it. *)
Definition set_training (mode : bool) (l : Layer) : Layer :=
  match l with
  | Dropout p _ => Dropout p mode
  | _ => l
  end.

Definition train (mode : bool) (m : WideAndDeepModel) : WideAndDeepModel :=
  mkModel (hparams m) (n_users m) (n_items m) (users_emb m) (items_emb m)
    (additional_embs m) (map (set_training mode) (deep m))
    (map (set_training mode) (head m)).

Definition eval (m : WideAndDeepModel) : WideAndDeepModel := train false m.

End Model.

Arguments WideAndDeepHyperParams F : clear implicits.
Arguments Embedding F : clear implicits.
Arguments Layer F : clear implicits.
Arguments WideAndDeepModel F : clear implicits.
Arguments ModuleState F G : clear implicits.

(** ** Vocabulary of the statements *)

(** The index tensor of line 81, element by element. *)
Definition bucket (n_items crossed_feat_dim : Z) (ui : Z * Z) : Z :=
  wrap64 (wrap64 (ui.1 * n_items) + ui.2) mod crossed_feat_dim.

(** Total correctness of a computation: from every state it returns a value
    satisfying [P], without raising. *)
Definition returns {S A} (c : M S A) (P : A -> Prop) : Prop :=
  forall s, exists a s', c s = (Ok a, s') /\ P a.

(** The computation reads no state and leaves it as it is. *)
Definition stateless {S A} (c : M S A) : Prop :=
  exists r, forall s, c s = (r, s).

Definition has_shape {A} (t : Tensor A) (r c : nat) : Prop :=
  wf_tensor t /\ nrows t = r /\ ncols t = c.

Definition size_ok (z : Z) : bool := (0 <=? z) && (z <=? int64_max).



Section Validity.

Context {F G : Type} `{Scalar F} `{Generator F G}.
Variable module_name_ok : string -> bool.

(** The computation leaves the model object of the module state as it is. *)
Definition preserves_self {A} (c : M (ModuleState F G) A) : Prop :=
  forall s, self (c s).2 = self s.

Definition wf_embedding (e : Embedding F) : Prop :=
  0 <= num_embeddings e /\ 0 <= embedding_dim e /\
  has_shape (weight e) (Z.to_nat (num_embeddings e)) (Z.to_nat (embedding_dim e)).

Definition dropout_ok (p : F) : bool := negb (fltb p f0 || fltb f1 p).

(** The layers are well-shaped and take rows of width [inw] to rows of
    width [outw]. *)
Fixpoint chain (ls : list (Layer F)) (inw outw : nat) : Prop :=
  match ls with
  | [] => inw = outw
  | Linear _ _ w b :: ls' =>
      wf_tensor w /\ ncols w = inw /\ length b = nrows w /\ chain ls' (nrows w) outw
  | Dropout p _ :: ls' => dropout_ok p = true /\ chain ls' inw outw
  | ReLU :: ls' => chain ls' inw outw
  | Sigmoid :: ls' => chain ls' inw outw
  end.

(** Width of the concatenated embeddings (line 74). *)
Definition embed_width (m : WideAndDeepModel F) : nat :=
  (ncols (weight (users_emb m)) + (ncols (weight (items_emb m))
   + sum_list (map (fun ke => ncols (weight ke.2)) (additional_embs m))))%nat.

(** What the constructor establishes and [forward] relies on. *)
Definition wf_model (m : WideAndDeepModel F) : Prop :=
  wf_embedding (users_emb m)
  /\ wf_embedding (items_emb m)
  /\ Forall (fun ke => wf_embedding ke.2) (additional_embs m)
  /\ in_int64 (n_items m) = true
  /\ 0 < crossed_feat_dim (hparams m) <= int64_max
  /\ 0 <= dnn_cont_features (hparams m)
  /\ exists dout,
       chain (deep m)
         (Z.to_nat (dnn_cont_features (hparams m)) + embed_width m) dout
       /\ exists inf outf w b,
            head m = [Linear inf outf w b; Sigmoid]
            /\ has_shape w 1 (Z.to_nat (crossed_feat_dim (hparams m)) + dout)
            /\ length b = 1%nat.

(** Input and output widths of the deep stack, as [__init__] computes them. *)
Definition deep_input_width (hp : WideAndDeepHyperParams F) : Z :=
  dnn_cont_features hp
  + (user_dim hp + item_dim hp
     + foldr (fun kv acc => kv.2.2 + acc) 0 (dnn_additional_embeddings_sizes hp)).

Definition deep_output_width (hp : WideAndDeepHyperParams F) : Z :=
  List.last (dnn_hidden_units hp) (deep_input_width hp).

(** Arguments on which the constructor does not raise. *)
Definition valid_config (num_users num_items : Z) (hp : WideAndDeepHyperParams F)
  : bool :=
  size_ok num_users && size_ok num_items
  && size_ok (user_dim hp) && size_ok (item_dim hp)
  && forallb (fun kv => module_name_ok kv.1 && size_ok kv.2.1 && size_ok kv.2.2)
       (dnn_additional_embeddings_sizes hp)
  && size_ok (dnn_cont_features hp)
  && size_ok (deep_input_width hp)
  && forallb size_ok (dnn_hidden_units hp)
  && match dnn_hidden_units hp with
     | [] => true
     | _ :: _ => dropout_ok (dnn_dropout hp)
     end
  && (0 <? crossed_feat_dim hp)
  && size_ok (crossed_feat_dim hp + deep_output_width hp).

(** A batch whose indices are inside the tables of the model, with one
    index tensor per declared additional feature and, when the model has
    continuous features, a matrix of the configured width. *)
Definition indices_ok (e : Embedding F) (idx : list Z) : Prop :=
  Forall (fun i => 0 <= i < Z.of_nat (nrows (weight e))) idx.

Definition valid_batch (m : WideAndDeepModel F)
    (interactions : list (Z * Z))
    (additional_embeddings : gmap string (list Z))
    (continuous_features : option (Tensor F)) : Prop :=
  indices_ok (users_emb m) (map fst interactions)
  /\ indices_ok (items_emb m) (map snd interactions)
  /\ Forall (fun ke => exists t, additional_embeddings !! ke.1 = Some t
                         /\ length t = length interactions
                         /\ indices_ok ke.2 t) (additional_embs m)
  /\ (0 < dnn_cont_features (hparams m) ->
      exists c, continuous_features = Some c
             /\ has_shape c (length interactions)
                  (Z.to_nat (dnn_cont_features (hparams m)))).

(** A constructed table agrees with its entry of
    [dnn_additional_embeddings_sizes]. *)
Definition emb_matches (kv : string * (Z * Z)) (ke : string * Embedding F) : Prop :=
  ke.1 = kv.1 /\ wf_embedding ke.2
  /\ num_embeddings ke.2 = kv.2.1 /\ embedding_dim ke.2 = kv.2.2.

(** Sum of the declared widths, and what refilling a table keeps. *)
Definition sum_dims (embs : list (string * Embedding F)) : Z :=
  foldr (fun ke acc => embedding_dim ke.2 + acc) 0 embs.

Definition emb_kept (ke ke' : string * Embedding F) : Prop :=
  ke'.1 = ke.1 /\ wf_embedding ke'.2
  /\ num_embeddings ke'.2 = num_embeddings ke.2
  /\ embedding_dim ke'.2 = embedding_dim ke.2.

(** The model is well-formed and sized as the arguments of the constructor
    say. *)
Definition built_from (num_users num_items : Z) (hp : WideAndDeepHyperParams F)
    (m : WideAndDeepModel F) : Prop :=
  wf_model m
  /\ hparams m = hp
  /\ n_users m = num_users
  /\ n_items m = num_items
  /\ num_embeddings (users_emb m) = num_users
  /\ num_embeddings (items_emb m) = num_items
  /\ Forall2 emb_matches (dnn_additional_embeddings_sizes hp) (additional_embs m).

(** The layer draws no random numbers: it is not a dropout in training
    mode with a non-zero probability. *)
Definition draws_nothing (l : Layer F) : bool :=
  match l with
  | Dropout p training => negb training || feqb p f0
  | _ => true
  end.

Definition is_linear (l : Layer F) : bool :=
  match l with Linear _ _ _ _ => true | _ => false end.

Definition is_dropout (l : Layer F) : bool :=
  match l with Dropout _ _ => true | _ => false end.

(** Position of the last linear layer of a stack whose first layer has
    position [i]. *)
Fixpoint last_linear (ls : list (Layer F)) (i : nat) : option nat :=
  match ls with
  | [] => None
  | l :: ls' =>
      match last_linear ls' (S i) with
      | Some j => Some j
      | None => if is_linear l then Some i else None
      end
  end.

(** No dropout directly follows the last linear layer of the stack. *)
Definition no_dropout_after_last (ls : list (Layer F)) : Prop :=
  forall j l, last_linear ls 0 = Some j -> ls !! S j = Some l -> is_dropout l = false.

(** The layer is not a dropout with a non-zero probability. *)
Definition zero_dropout (l : Layer F) : bool :=
  match l with
  | Dropout p _ => feqb p f0
  | _ => true
  end.

(** Arguments the constructor accepts: it checks neither the sign of
    [crossed_feat_dim] nor that of [dnn_cont_features]. *)
Definition accepted_config (num_users num_items : Z) (hp : WideAndDeepHyperParams F)
  : bool :=
  size_ok num_users && size_ok num_items
  && size_ok (user_dim hp) && size_ok (item_dim hp)
  && forallb (fun kv => size_ok kv.2.1 && size_ok kv.2.2)
       (dnn_additional_embeddings_sizes hp)
  && forallb (fun kv => module_name_ok kv.1) (dnn_additional_embeddings_sizes hp)
  && forallb size_ok (dnn_hidden_units hp)
  && match dnn_hidden_units hp with
     | [] => true
     | _ :: _ => size_ok (deep_input_width hp) && dropout_ok (dnn_dropout hp)
     end
  && size_ok (crossed_feat_dim hp + deep_output_width hp).

End Validity.

(** ** A rational instance, to run the model on concrete inputs

    Scalars are exact rationals kept in lowest terms. The transcendental
    operations are replaced by rational stand-ins: [x / (2 (1 + |x|)) + 1/2]
    for the logistic function and [1 / (1 + n)] for [1 / sqrt n]. The
    generator is a linear congruential sequence. *)
Module Exact.

Definition qsigmoid (x : Q) : Q :=
  Qred (x / (2 * (1 + Qabs x)) + (1 # 2))%Q.

#[export] Instance scalar_Q : Scalar Q := {|
  f0 := 0%Q;
  f1 := 1%Q;
  fadd x y := Qred (x + y);
  fsub x y := Qred (x - y);
  fmul x y := Qred (x * y);
  fdiv x y := Qred (x / y);
  feqb := Qeq_bool;
  fltb x y := negb (Qle_bool y x);
  frelu x := if Qle_bool 0 x then x else 0%Q;
  fsigmoid := qsigmoid;
  of_int z := inject_Z z;
  rsqrt_fan n := Qred (1 / inject_Z (1 + n))
|}.

Definition lcg (g : N) : N := ((g * 1103515245 + 12345) mod 2147483648)%N.

Definition unit_draw (g : N) : Q * N :=
  let g' := lcg g in
  (Qred (inject_Z (Z.of_N (g' / 2097152)) / 1024), g').

#[export] Instance generator_lcg : Generator Q N := {|
  bernoulli p g := let '(u, g') := unit_draw g in (negb (Qle_bool p u), g');
  normal g := let '(u, g') := unit_draw g in (Qred (4 * u - 2), g');
  uniform lo hi g := let '(u, g') := unit_draw g in (Qred (lo + (hi - lo) * u), g')
|}.

(** Keys refused here: the empty name and names containing a dot. *)
Fixpoint has_dot (k : string) : bool :=
  match k with
  | EmptyString => false
  | String c k' => Ascii.eqb c "."%char || has_dot k'
  end.

Definition name_ok (k : string) : bool :=
  match k with
  | EmptyString => false
  | _ => negb (has_dot k)
  end.

(** The scenario of the specification: 10 users, 5 items, 7 buckets. *)
Definition hp_small : WideAndDeepHyperParams Q :=
  mkHyperParams 2 3 7 [4; 2] (1 # 2)%Q [] 0.

Definition hp_genre : WideAndDeepHyperParams Q :=
  mkHyperParams 2 3 7 [4; 2] 0%Q [("genre"%string, (20, 4))] 0.

Definition hp_cont : WideAndDeepHyperParams Q :=
  mkHyperParams 2 3 7 [4] 0%Q [] 2.

Definition hp_flat : WideAndDeepHyperParams Q :=
  mkHyperParams 2 3 7 [] 0%Q [("genre"%string, (20, 4))] 2.

(** No bucket at all, and a dropout probability above 1. *)
Definition hp_zero : WideAndDeepHyperParams Q :=
  mkHyperParams 2 3 0 [4] 0%Q [] 0.

Definition hp_bad_dropout : WideAndDeepHyperParams Q :=
  mkHyperParams 2 3 7 [4; 2] (3 # 2)%Q [] 0.

Definition construct (hp : WideAndDeepHyperParams Q) (seed : N)
  : result (WideAndDeepModel Q) * N :=
  __init__ name_ok 10 5 hp seed.

End Exact.

(** * Properties *)

(** ** Generic facts about traversals *)

Lemma rbind_Ok {A B} (r : result A) (k : A -> result B) (b : B) :
  rbind r k = Ok b -> exists a, r = Ok a /\ k a = Ok b.
Proof. destruct r as [a|e]; simpl; [eauto | discriminate]. Qed.

Lemma traverse_map {A B} (f : A -> result B) (g : A -> B) (l : list A) :
  Forall (fun a => f a = Ok (g a)) l -> traverse f l = Ok (map g l).
Proof.
  induction 1 as [|a l Ha _ IH]; simpl; [reflexivity|].
  rewrite Ha; simpl. rewrite IH; reflexivity.
Qed.

Lemma traverse_Ok_Forall2 {A B} (f : A -> result B) (l : list A) (bs : list B) :
  traverse f l = Ok bs -> Forall2 (fun a b => f a = Ok b) l bs.
Proof.
  revert bs; induction l as [|a l IH]; simpl; intros bs Hbs.
  - injection Hbs as <-. constructor.
  - apply rbind_Ok in Hbs as (b & Hb & Hbs).
    apply rbind_Ok in Hbs as (bs' & Hbs' & Hbs).
    injection Hbs as <-. constructor; auto.
Qed.

Lemma traverse_Ok_length {A B} (f : A -> result B) (l : list A) (bs : list B) :
  traverse f l = Ok bs -> length bs = length l.
Proof. intros Hbs. symmetry. exact (Forall2_length _ _ _ (traverse_Ok_Forall2 _ _ _ Hbs)). Qed.

(** ** Signed 64-bit arithmetic *)

Lemma wrap64_small (z : Z) : in_int64 z = true -> wrap64 z = z.
Proof.
  unfold in_int64, int64_min, int64_max, wrap64. intros Hz.
  apply andb_prop in Hz as [Hlo Hhi].
  apply Z.leb_le in Hlo, Hhi.
  rewrite Z.mod_small; lia.
Qed.

Lemma wrap64_add_l (a b : Z) : wrap64 (wrap64 a + b) = wrap64 (a + b).
Proof.
  unfold wrap64.
  replace ((a + 2 ^ 63) mod 2 ^ 64 - 2 ^ 63 + b + 2 ^ 63)
    with ((a + 2 ^ 63) mod 2 ^ 64 + b) by lia.
  rewrite Zplus_mod_idemp_l. do 2 f_equal. lia.
Qed.

Lemma wrap64_range (z : Z) : in_int64 (wrap64 z) = true.
Proof.
  unfold in_int64, int64_min, int64_max, wrap64.
  pose proof (Z.mod_pos_bound (z + 2 ^ 63) (2 ^ 64) ltac:(lia)).
  apply andb_true_intro; split; apply Z.leb_le; lia.
Qed.

(** ** The wide cross feature (lines 81-82) *)

Lemma cross_product_idx_eq (n_items dim : Z) (interactions : list (Z * Z)) :
  in_int64 n_items = true ->
  in_int64 dim = true ->
  dim <> 0 ->
  cross_product_idx n_items dim (map fst interactions) (map snd interactions)
  = Ok (map (bucket n_items dim) interactions).
Proof.
  intros Hn Hd Hd0. unfold cross_product_idx, mul_scalar, add_tensor, remainder, to_int64.
  rewrite Hn, Hd; simpl. rewrite !length_map, Nat.eqb_refl.
  destruct (Z.eqb_spec dim 0) as [|_]; [contradiction|]. simpl.
  rewrite (traverse_map _ (fun a => a mod dim)) by (apply Forall_forall; auto).
  f_equal. induction interactions as [|[u i] l IH]; simpl; [reflexivity|].
  f_equal. apply IH.
Qed.

Lemma cross_product_idx_Ok (n_items dim : Z) (interactions : list (Z * Z)) (idx : list Z) :
  cross_product_idx n_items dim (map fst interactions) (map snd interactions) = Ok idx ->
  interactions = [] /\ idx = [] \/
  in_int64 n_items = true /\ in_int64 dim = true /\ dim <> 0.
Proof.
  unfold cross_product_idx, mul_scalar, add_tensor, remainder, to_int64.
  destruct (in_int64 n_items); simpl; [|discriminate].
  rewrite !length_map, Nat.eqb_refl.
  destruct (in_int64 dim); simpl; [|discriminate].
  destruct interactions as [|[u i] l]; simpl.
  - intros [= <-]. left; auto.
  - destruct (Z.eqb_spec dim 0); simpl; [discriminate|]. intros _. right; auto.
Qed.

Lemma one_hot_row_length (n : nat) (i : Z) : length (one_hot_row n i) = n.
Proof. unfold one_hot_row. rewrite length_map. apply length_seq. Qed.

Lemma one_hot_row_lookup (n : nat) (i : Z) (j : nat) :
  (j < n)%nat ->
  one_hot_row n i !! j = Some (if Z.of_nat j =? i then 1 else 0).
Proof.
  intros Hj. unfold one_hot_row.
  rewrite list_lookup_fmap, lookup_seq_lt by assumption. reflexivity.
Qed.

Lemma foldr_min_elem (d : Z) (l : list Z) : foldr Z.min d l ∈ d :: l.
Proof.
  induction l as [|a l IH]; simpl; [left|].
  destruct (Z.min_spec a (foldr Z.min d l)) as [[_ ->]|[_ ->]].
  - right; left.
  - apply elem_of_cons in IH as [->|IH]; [left | right; right; exact IH].
Qed.

Lemma foldr_max_elem (d : Z) (l : list Z) : foldr Z.max d l ∈ d :: l.
Proof.
  induction l as [|a l IH]; simpl; [left|].
  destruct (Z.max_spec a (foldr Z.max d l)) as [[_ ->]|[_ ->]].
  - apply elem_of_cons in IH as [->|IH]; [left | right; right; exact IH].
  - right; left.
Qed.

Lemma list_min_elem (a : Z) (l : list Z) : list_min (a :: l) ∈ a :: l.
Proof.
  unfold list_min. simpl hd.
  pose proof (foldr_min_elem a (a :: l)) as Hin.
  apply elem_of_cons in Hin as [->|Hin]; [left | exact Hin].
Qed.

Lemma list_max_elem (a : Z) (l : list Z) : list_max (a :: l) ∈ a :: l.
Proof.
  unfold list_max. simpl hd.
  pose proof (foldr_max_elem a (a :: l)) as Hin.
  apply elem_of_cons in Hin as [->|Hin]; [left | exact Hin].
Qed.

Lemma one_hot_Ok (idx : list Z) (dim : Z) :
  0 < dim ->
  Forall (fun i => 0 <= i < dim) idx ->
  one_hot idx dim = Ok (mkTensor (Z.to_nat dim) (map (one_hot_row (Z.to_nat dim)) idx)).
Proof.
  intros Hdim Hidx. unfold one_hot.
  destruct idx as [|a l].
  - destruct (Z.leb_spec dim 0); [lia | reflexivity].
  - pose proof (list_min_elem a l) as Hmin. pose proof (list_max_elem a l) as Hmax.
    rewrite Forall_forall in Hidx.
    apply Hidx in Hmin, Hmax.
    destruct (Z.ltb_spec (list_min (a :: l)) 0); [lia|].
    destruct (Z.eqb_spec dim (-1)); [lia|].
    destruct (Z.ltb_spec (list_max (a :: l)) dim); [reflexivity | lia].
Qed.

Lemma bucket_range (n_items dim : Z) (ui : Z * Z) :
  0 < dim -> 0 <= bucket n_items dim ui < dim.
Proof. intros Hdim. unfold bucket. apply Z.mod_pos_bound. exact Hdim. Qed.

Lemma bucket_exact (n_items dim : Z) (ui : Z * Z) :
  in_int64 (ui.1 * n_items + ui.2) = true ->
  bucket n_items dim ui = (ui.1 * n_items + ui.2) mod dim.
Proof.
  intros Hfit. unfold bucket. rewrite wrap64_add_l, wrap64_small by exact Hfit.
  reflexivity.
Qed.

Lemma one_hot_rows_lookup (idx : list Z) (n : nat) (k : nat) (i : Z) :
  idx !! k = Some i ->
  map (one_hot_row n) idx !! k = Some (one_hot_row n i).
Proof. intros Hk. rewrite list_lookup_fmap, Hk. reflexivity. Qed.

(** C1, as amended. For every batch in which no [user * num_items + item]
    leaves the signed 64-bit range, and a positive [crossed_feat_dim], the
    index tensor of line 81 holds [(user * num_items + item) mod
    crossed_feat_dim] for each row, and its one-hot encoding has
    [crossed_feat_dim] columns, one row per example, with a 1 at exactly
    that position and 0 everywhere else. *)
Theorem cross_index_one_hot (n_items dim : Z) (interactions : list (Z * Z)) :
  in_int64 n_items = true ->
  0 < dim <= int64_max ->
  Forall (fun ui => in_int64 (ui.1 * n_items + ui.2) = true) interactions ->
  exists idx t,
    cross_product_idx n_items dim (map fst interactions) (map snd interactions) = Ok idx
    /\ idx = map (fun ui => (ui.1 * n_items + ui.2) mod dim) interactions
    /\ one_hot idx dim = Ok t
    /\ nrows t = length interactions
    /\ ncols t = Z.to_nat dim
    /\ forall k ui, interactions !! k = Some ui ->
         exists r, rows t !! k = Some r
           /\ length r = Z.to_nat dim
           /\ forall j, (j < Z.to_nat dim)%nat ->
                r !! j = Some (if Z.of_nat j =? (ui.1 * n_items + ui.2) mod dim
                               then 1 else 0).
Proof.
  intros Hn [Hpos Hmax] Hfit.
  assert (Hd : in_int64 dim = true).
  { unfold in_int64, int64_min. apply andb_true_intro; split; apply Z.leb_le; lia. }
  assert (Hidx : map (bucket n_items dim) interactions
                 = map (fun ui => (ui.1 * n_items + ui.2) mod dim) interactions).
  { apply map_ext_Forall. eapply Forall_impl; [exact Hfit|].
    intros ui Hui. apply bucket_exact, Hui. }
  eexists _, _. split; [|split; [reflexivity|]].
  { rewrite cross_product_idx_eq by (auto; lia). f_equal. exact Hidx. }
  split; [|split; [|split]].
  - apply one_hot_Ok; [exact Hpos|]. apply Forall_forall. intros x Hx.
    apply list_elem_of_fmap in Hx as (ui & -> & _). apply Z.mod_pos_bound, Hpos.
  - unfold nrows; simpl. rewrite !length_map. reflexivity.
  - reflexivity.
  - intros k ui Hk. simpl. eexists. split; [|split].
    + apply one_hot_rows_lookup. rewrite list_lookup_fmap, Hk. reflexivity.
    + apply one_hot_row_length.
    + intros j Hj. apply one_hot_row_lookup, Hj.
Qed.

(** The scenario of the specification: 5 items, 7 buckets, user 3, item 4. *)
Lemma cross_index_one_hot_witness :
  in_int64 5 = true /\ 0 < 7 <= int64_max /\
  exists idx t,
    cross_product_idx 5 7 [3] [4] = Ok idx
    /\ idx = [(3 * 5 + 4) mod 7]
    /\ one_hot idx 7 = Ok t
    /\ nrows t = 1%nat
    /\ ncols t = 7%nat
    /\ forall k ui, [(3, 4)] !! k = Some ui ->
         exists r, rows t !! k = Some r
           /\ length r = 7%nat
           /\ forall j, (j < 7)%nat ->
                r !! j = Some (if Z.of_nat j =? (ui.1 * 5 + ui.2) mod 7 then 1 else 0).
Proof.
  split; [reflexivity|]. split; [unfold int64_max; lia|].
  apply (cross_index_one_hot 5 7 [(3, 4)]).
  - reflexivity.
  - unfold int64_max; lia.
  - repeat constructor.
Defined.

Example scenario_cross_index :
  cross_product_idx 5 7 [3] [4] = Ok [5]
  /\ one_hot [5] 7 = Ok (mkTensor 7 [[0; 0; 0; 0; 0; 1; 0]]).
Proof. split; reflexivity. Qed.

(** C1 as first stated fails where the int64 product wraps around: with
    [2^62] items, user 2 and item 0 land in bucket 6, while
    [(2 * 2^62 + 0) mod 7] is 1. *)
Lemma cross_index_wraps :
  cross_product_idx (2 ^ 62) 7 (map fst [(2, 0)]) (map snd [(2, 0)])
  <> Ok (map (fun ui : Z * Z => (ui.1 * 2 ^ 62 + ui.2) mod 7) [(2, 0)]).
Proof. vm_compute. discriminate. Qed.

Example cross_index_wraps_value :
  cross_product_idx (2 ^ 62) 7 [2] [0] = Ok [6] /\ (2 * 2 ^ 62 + 0) mod 7 = 1.
Proof. split; reflexivity. Qed.

(** C6. With a positive [crossed_feat_dim], every bucket index that line 81
    computes lies in [0, crossed_feat_dim), whatever the user and item
    indices are (the int64 wrap-around included); and an index is computed
    for every row as soon as [num_items] and [crossed_feat_dim] are int64
    values. *)
Theorem cross_index_in_range (n_items dim : Z) (interactions : list (Z * Z)) :
  0 < dim ->
  (forall idx,
     cross_product_idx n_items dim (map fst interactions) (map snd interactions) = Ok idx ->
     Forall (fun i => 0 <= i < dim) idx)
  /\ (in_int64 n_items = true -> dim <= int64_max ->
      exists idx,
        cross_product_idx n_items dim (map fst interactions) (map snd interactions) = Ok idx
        /\ length idx = length interactions).
Proof.
  intros Hpos. split.
  - intros idx Hidx.
    destruct (cross_product_idx_Ok _ _ _ _ Hidx) as [[_ ->]|(Hn & Hd & Hd0)];
      [constructor|].
    rewrite cross_product_idx_eq in Hidx by assumption.
    injection Hidx as <-. apply Forall_forall. intros x Hx.
    apply list_elem_of_fmap in Hx as (ui & -> & _). apply bucket_range, Hpos.
  - intros Hn Hmax. eexists. split.
    + apply cross_product_idx_eq; [exact Hn| |lia].
      unfold in_int64, int64_min. apply andb_true_intro; split; apply Z.leb_le; lia.
    + apply length_map.
Qed.

(** Ten users, five items, seven buckets: the first and the last user. *)
Lemma cross_index_in_range_witness :
  0 < 7 /\
  (forall idx, cross_product_idx 5 7 [0; 9] [0; 4] = Ok idx ->
     Forall (fun i => 0 <= i < 7) idx)
  /\ (in_int64 5 = true -> 7 <= int64_max ->
      exists idx, cross_product_idx 5 7 [0; 9] [0; 4] = Ok idx /\ length idx = 2%nat).
Proof.
  split; [lia|]. apply (cross_index_in_range 5 7 [(0, 0); (9, 4)]). lia.
Defined.

(** ** Reasoning rules of the monad *)

Section MonadRules.

Context {S : Type}.

Lemma bind_gets {A B} (f : S -> A) (k : A -> M S B) (s : S) :
  bind (gets f) k s = k (f s) s.
Proof. reflexivity. Qed.

Lemma bind_lift_Ok {A B} (r : result A) (a : A) (k : A -> M S B) (s : S) :
  r = Ok a -> bind (lift r) k s = k a s.
Proof. intros ->. reflexivity. Qed.

Lemma bind_lift_Raise {A B} (r : result A) (e : error) (k : A -> M S B) (s : S) :
  r = Raise e -> bind (lift r) k s = (Raise e, s).
Proof. intros ->. reflexivity. Qed.

Lemma bind_Ok_inv {A B} (c : M S A) (k : A -> M S B) (s s' : S) (b : B) :
  bind c k s = (Ok b, s') ->
  exists a s1, c s = (Ok a, s1) /\ k a s1 = (Ok b, s').
Proof.
  unfold bind. destruct (c s) as [[a|e] s1]; [eauto | discriminate].
Qed.

Lemma returns_ret {A} (a : A) (P : A -> Prop) : P a -> returns (S:=S) (ret a) P.
Proof. intros Ha s. exists a, s. auto. Qed.

Lemma returns_lift {A} (r : result A) (a : A) (P : A -> Prop) :
  r = Ok a -> P a -> returns (S:=S) (lift r) P.
Proof. intros -> Ha s. exists a, s. auto. Qed.

Lemma returns_bind {A B} (c : M S A) (k : A -> M S B) (P : A -> Prop) (Q : B -> Prop) :
  returns c P -> (forall a, P a -> returns (k a) Q) -> returns (bind c k) Q.
Proof.
  intros Hc Hk s. destruct (Hc s) as (a & s1 & Hcs & Ha).
  destruct (Hk a Ha s1) as (b & s2 & Hks & Hb).
  exists b, s2. unfold bind. rewrite Hcs. auto.
Qed.

Lemma returns_weaken {A} (c : M S A) (P Q : A -> Prop) :
  returns c P -> (forall a, P a -> Q a) -> returns c Q.
Proof.
  intros Hc HPQ s. destruct (Hc s) as (a & s1 & Hcs & Ha). exists a, s1. auto.
Qed.

Lemma returns_replicateM {A} (c : M S A) (P : A -> Prop) (n : nat) :
  returns c P ->
  returns (replicateM n c) (fun l => length l = n /\ Forall P l).
Proof.
  intros Hc. induction n as [|n IH]; simpl.
  - apply returns_ret. auto.
  - eapply returns_bind; [exact Hc|]. intros a Ha.
    eapply returns_bind; [exact IH|]. intros l [Hlen Hl].
    apply returns_ret. simpl. auto.
Qed.

Lemma returns_traverseM {A B} (f : A -> M S B) (Q : A -> B -> Prop) (l : list A) :
  Forall (fun a => returns (f a) (Q a)) l ->
  returns (traverseM f l) (fun bs => Forall2 Q l bs).
Proof.
  induction 1 as [|a l Ha _ IH]; simpl.
  - apply returns_ret. constructor.
  - eapply returns_bind; [exact Ha|]. intros b Hb.
    eapply returns_bind; [exact IH|]. intros bs Hbs.
    apply returns_ret. constructor; assumption.
Qed.

Lemma stateless_ret {A} (a : A) : stateless (S:=S) (ret a).
Proof. exists (Ok a). reflexivity. Qed.

Lemma stateless_raise {A} (e : error) : stateless (S:=S) (A:=A) (raise e).
Proof. exists (Raise e). reflexivity. Qed.

Lemma stateless_lift {A} (r : result A) : stateless (S:=S) (lift r).
Proof. exists r. reflexivity. Qed.

Lemma stateless_bind {A B} (c : M S A) (k : A -> M S B) :
  stateless c -> (forall a, stateless (k a)) -> stateless (bind c k).
Proof.
  intros [r Hr] Hk. destruct r as [a|e].
  - destruct (Hk a) as [r' Hr']. exists r'. intros s.
    unfold bind. rewrite Hr. apply Hr'.
  - exists (Raise e). intros s. unfold bind. rewrite Hr. reflexivity.
Qed.

End MonadRules.

(** ** The constructor *)

Section Constructor.

Context {F G : Type} `{Scalar F} `{Generator F G}.
Variable module_name_ok : string -> bool.

Lemma size_ok_spec (z : Z) : size_ok z = true <-> 0 <= z <= int64_max.
Proof.
  unfold size_ok. rewrite andb_true_iff, !Z.leb_le. reflexivity.
Qed.

Lemma draw_normal_returns : returns (draw_normal (F:=F) (G:=G)) (fun _ => True).
Proof.
  intros g. unfold draw_normal. destruct (normal g) as [v g']. exists v, g'. auto.
Qed.

Lemma draw_uniform_returns (lo hi : F) :
  returns (draw_uniform (G:=G) lo hi) (fun _ => True).
Proof.
  intros g. unfold draw_uniform. destruct (uniform lo hi g) as [v g']. exists v, g'. auto.
Qed.

Lemma sample_tensor_returns (r c : nat) (draw : M G F) :
  returns draw (fun _ => True) ->
  returns (sample_tensor r c draw) (fun t => has_shape t r c).
Proof.
  intros Hdraw. unfold sample_tensor.
  eapply returns_bind.
  - apply returns_replicateM, returns_replicateM, Hdraw.
  - intros rs [Hlen Hrs]. apply returns_ret. unfold has_shape, wf_tensor, nrows; simpl.
    split; [|auto]. eapply Forall_impl; [exact Hrs|]. simpl. tauto.
Qed.

Lemma check_size_returns (z : Z) :
  size_ok z = true -> returns (check_size (G:=G) z) (fun _ => True).
Proof.
  intros Hz%size_ok_spec. unfold check_size.
  destruct (Z.ltb_spec z 0); [lia|].
  destruct (Z.ltb_spec int64_max z); [lia|].
  apply returns_ret, I.
Qed.

Lemma check_size_Ok (z : Z) (g g' : G) (u : unit) :
  check_size z g = (Ok u, g') -> size_ok z = true /\ g' = g.
Proof.
  unfold check_size. rewrite size_ok_spec.
  destruct (Z.ltb_spec z 0); [discriminate|].
  destruct (Z.ltb_spec int64_max z); [discriminate|].
  intros [= _ <-]. split; [lia | reflexivity].
Qed.

Lemma Embedding_new_returns (num dim : Z) :
  size_ok num = true -> size_ok dim = true ->
  returns (Embedding_new (G:=G) num dim)
    (fun e => wf_embedding e /\ num_embeddings e = num /\ embedding_dim e = dim).
Proof.
  intros Hnum Hdim. unfold Embedding_new.
  eapply returns_bind; [apply check_size_returns, Hnum|]. intros _ _.
  eapply returns_bind; [apply check_size_returns, Hdim|]. intros _ _.
  eapply returns_bind; [apply sample_tensor_returns, draw_normal_returns|].
  intros w Hw. apply returns_ret. unfold wf_embedding; simpl.
  apply size_ok_spec in Hnum, Hdim. intuition lia.
Qed.

Lemma uniform__returns (lo hi : F) (e : Embedding F) :
  wf_embedding e ->
  returns (uniform_ (G:=G) lo hi e)
    (fun e' => wf_embedding e'
               /\ num_embeddings e' = num_embeddings e
               /\ embedding_dim e' = embedding_dim e).
Proof.
  intros (Hnum & Hdim & Hwf & Hr & Hc). unfold uniform_.
  eapply returns_bind; [apply sample_tensor_returns, draw_uniform_returns|].
  intros w Hw. apply returns_ret. unfold wf_embedding; simpl.
  rewrite Hr, Hc in Hw. auto.
Qed.

Lemma Linear_new_returns (inf outf : Z) :
  size_ok inf = true -> size_ok outf = true ->
  returns (Linear_new (G:=G) inf outf)
    (fun l => exists w b, l = Linear inf outf w b
                /\ has_shape w (Z.to_nat outf) (Z.to_nat inf)
                /\ length b = Z.to_nat outf).
Proof.
  intros Hin Hout. unfold Linear_new.
  eapply returns_bind; [apply check_size_returns, Hout|]. intros _ _.
  eapply returns_bind; [apply check_size_returns, Hin|]. intros _ _.
  eapply returns_bind; [apply sample_tensor_returns, draw_uniform_returns|].
  intros w Hw.
  eapply returns_bind; [apply returns_replicateM, draw_uniform_returns|].
  intros b [Hb _]. apply returns_ret. eauto.
Qed.

Lemma Dropout_new_returns (p : F) :
  dropout_ok p = true ->
  returns (Dropout_new (G:=G) p) (fun l => l = Dropout p true).
Proof.
  unfold dropout_ok, Dropout_new. intros Hp.
  destruct (fltb p f0 || fltb f1 p); [discriminate|]. apply returns_ret. reflexivity.
Qed.

Lemma new_additional_embs_returns (sizes : list (string * (Z * Z))) :
  forallb (fun kv => module_name_ok kv.1 && size_ok kv.2.1 && size_ok kv.2.2) sizes = true ->
  returns (new_additional_embs (G:=G) module_name_ok sizes)
    (fun embs => Forall2 emb_matches sizes embs).
Proof.
  intros Hsizes. rewrite forallb_forall in Hsizes. unfold new_additional_embs.
  eapply returns_bind.
  - apply (returns_traverseM _ (fun kv ke => emb_matches kv ke /\ module_name_ok ke.1 = true)).
    apply Forall_forall. intros [k [num dim]] Hin%list_elem_of_In.
    apply Hsizes in Hin. simpl in Hin.
    apply andb_prop in Hin as [Hin Hdim]. apply andb_prop in Hin as [Hk Hnum].
    eapply returns_bind; [apply Embedding_new_returns; eassumption|].
    intros e (Hwf & Hn & Hd). apply returns_ret. unfold emb_matches; simpl. auto.
  - intros embs Hembs.
    eapply returns_bind.
    + apply (returns_traverseM _ (fun _ _ => True)).
      assert (Hnames : Forall (fun ke => module_name_ok ke.1 = true) embs)
        by (clear -Hembs; induction Hembs; constructor; tauto).
      eapply Forall_impl; [exact Hnames|]. intros [k e] Hk. simpl in Hk.
      rewrite Hk. apply returns_ret, I.
    + intros _ _. apply returns_ret.
      eapply Forall2_impl; [exact Hembs|]. simpl. tauto.
Qed.

Lemma init_additional_embs_returns (embs : list (string * Embedding F)) (total : Z) :
  Forall (fun ke => wf_embedding ke.2) embs ->
  returns (init_additional_embs (G:=G) embs total)
    (fun r => Forall2 emb_kept embs r.1 /\ r.2 = total + sum_dims embs).
Proof.
  intros Hembs. revert total.
  induction Hembs as [|[k e] embs He _ IH]; intros total; simpl.
  - apply returns_ret. simpl. split; [constructor | lia].
  - eapply returns_bind; [apply uniform__returns, He|].
    intros e' (Hwf & Hn & Hd).
    eapply returns_bind; [apply IH|].
    intros [rest tot] [Hrest Htot]. simpl in *.
    apply returns_ret. simpl. split.
    + constructor; [|exact Hrest]. unfold emb_kept; simpl. auto.
    + lia.
Qed.

Lemma last_nonempty (a d d' : Z) (l : list Z) :
  List.last (a :: l) d = List.last (a :: l) d'.
Proof.
  revert a. induction l as [|b l IH]; intros a; [reflexivity|].
  change (List.last (b :: l) d = List.last (b :: l) d'). apply IH.
Qed.

Lemma last_cons_default (hu prev : Z) (hus : list Z) :
  List.last (hu :: hus) prev = List.last hus hu.
Proof.
  destruct hus as [|b l]; [reflexivity|].
  change (List.last (b :: l) prev = List.last (b :: l) hu). apply last_nonempty.
Qed.

Lemma build_deep_returns (p : F) (hus : list Z) (prev : Z) :
  size_ok prev = true ->
  forallb size_ok hus = true ->
  (hus <> [] -> dropout_ok p = true) ->
  returns (build_deep (G:=G) p prev hus)
    (fun r => r.2 = List.last hus prev
              /\ chain r.1 (Z.to_nat prev) (Z.to_nat r.2)).
Proof.
  revert prev. induction hus as [|hu hus IH]; intros prev Hprev Hhus Hp.
  - simpl. apply returns_ret. simpl. auto.
  - cbn [build_deep]. simpl in Hhus. apply andb_prop in Hhus as [Hhu Hhus].
    eapply returns_bind; [apply Linear_new_returns; eassumption|].
    intros lin (w & b & -> & (Hwf & Hr & Hc) & Hb).
    eapply returns_bind; [apply Dropout_new_returns, Hp; discriminate|].
    intros drop ->.
    eapply returns_bind; [apply (IH hu Hhu Hhus); intros _; apply Hp; discriminate|].
    intros [layers out] [Hout Hchain]. simpl in Hout, Hchain.
    apply returns_ret. cbn [fst snd]. rewrite last_cons_default. split; [exact Hout|].
    simpl. rewrite Hr. repeat split; auto.
Qed.


Lemma Linear_new_Ok (inf outf : Z) (g g' : G) (l : Layer F) :
  Linear_new inf outf g = (Ok l, g') -> exists w b, l = Linear inf outf w b.
Proof.
  unfold Linear_new. intros Hl.
  apply bind_Ok_inv in Hl as (_ & g1 & _ & Hl).
  apply bind_Ok_inv in Hl as (_ & g2 & _ & Hl).
  apply bind_Ok_inv in Hl as (w & g3 & _ & Hl).
  apply bind_Ok_inv in Hl as (b & g4 & _ & Hl).
  injection Hl as <- _. eauto.
Qed.

Lemma Dropout_new_Ok (p : F) (g g' : G) (l : Layer F) :
  Dropout_new p g = (Ok l, g') -> l = Dropout p true.
Proof.
  unfold Dropout_new. destruct (fltb p f0 || fltb f1 p); [discriminate|].
  intros [= <- _]. reflexivity.
Qed.

(** Every successful run of the loop of lines 49-53 yields, for the hidden
    width at position [i], a linear layer at position [3 i] taking the
    previous width to this one, a dropout at [3 i + 1] and a ReLU at
    [3 i + 2]. *)
Lemma build_deep_Ok (p : F) (hus : list Z) (prev : Z) (g g' : G)
    (ls : list (Layer F)) (out : Z) :
  build_deep p prev hus g = (Ok (ls, out), g') ->
  length ls = (3 * length hus)%nat
  /\ forall i hu, hus !! i = Some hu ->
       exists inf w b,
         (prev :: hus) !! i = Some inf
         /\ ls !! (3 * i)%nat = Some (Linear inf hu w b)
         /\ ls !! (3 * i + 1)%nat = Some (Dropout p true)
         /\ ls !! (3 * i + 2)%nat = Some ReLU.
Proof.
  revert prev g g' ls out.
  induction hus as [|hu0 hus IH]; intros prev g g' ls out Hb.
  - injection Hb as <- _ _. split; [reflexivity|]. intros i hu Hi.
    rewrite lookup_nil in Hi. discriminate.
  - cbn [build_deep] in Hb.
    apply bind_Ok_inv in Hb as (lin & g1 & Hlin & Hb).
    apply bind_Ok_inv in Hb as (drop & g2 & Hdrop & Hb).
    apply bind_Ok_inv in Hb as ([layers out'] & g3 & Hrest & Hb).
    injection Hb as <- _ _.
    apply Linear_new_Ok in Hlin as (w & b & ->).
    apply Dropout_new_Ok in Hdrop as ->.
    destruct (IH _ _ _ _ _ Hrest) as [Hlen Hpos].
    split; [simpl; rewrite Hlen; lia|].
    intros [|i] hu Hi.
    + injection Hi as ->. exists prev, w, b. simpl. auto.
    + simpl in Hi. destruct (Hpos i hu Hi) as (inf & w' & b' & Hinf & H0' & H1' & H2').
      exists inf, w', b'.
      replace (3 * S i)%nat with (S (S (S (3 * i)))) by lia.
      simpl. auto.
Qed.

Lemma last_size_ok (hus : list Z) (prev : Z) :
  size_ok prev = true -> forallb size_ok hus = true ->
  size_ok (List.last hus prev) = true.
Proof.
  revert prev. induction hus as [|hu hus IH]; intros prev Hprev Hhus; [exact Hprev|].
  simpl in Hhus. apply andb_prop in Hhus as [Hhu Hhus].
  rewrite last_cons_default. apply IH; assumption.
Qed.

Lemma sum_dims_matches (sizes : list (string * (Z * Z)))
    (embs : list (string * Embedding F)) :
  Forall2 emb_matches sizes embs ->
  sum_dims embs = foldr (fun kv acc => kv.2.2 + acc) 0 sizes.
Proof.
  induction 1 as [|kv ke sizes embs (_ & _ & _ & Hd) _ IH]; simpl; [reflexivity|].
  rewrite Hd, IH. reflexivity.
Qed.

Lemma sum_dims_kept (embs embs' : list (string * Embedding F)) :
  Forall2 emb_kept embs embs' -> sum_dims embs' = sum_dims embs.
Proof.
  induction 1 as [|ke ke' embs embs' (_ & _ & _ & Hd) _ IH]; simpl; [reflexivity|].
  rewrite Hd, IH. reflexivity.
Qed.

Lemma sum_dims_width (embs : list (string * Embedding F)) :
  Forall (fun ke => wf_embedding ke.2) embs ->
  0 <= sum_dims embs
  /\ sum_list (map (fun ke => ncols (weight ke.2)) embs) = Z.to_nat (sum_dims embs).
Proof.
  induction 1 as [|ke embs (_ & Hd & _ & _ & Hc) _ [IH0 IH]]; simpl; [split; [lia|reflexivity]|].
  rewrite Hc, IH. split; lia.
Qed.


Lemma emb_matches_kept (sizes : list (string * (Z * Z)))
    (embs embs' : list (string * Embedding F)) :
  Forall2 emb_matches sizes embs -> Forall2 emb_kept embs embs' ->
  Forall2 emb_matches sizes embs'.
Proof.
  intros Hm. revert embs'.
  induction Hm as [|kv ke sizes embs (Hk & _ & Hn & Hd) _ IH]; intros embs' Hk'.
  - inversion Hk'. constructor.
  - inversion Hk' as [|? ke' ? embs'' (Hk2 & Hwf & Hn2 & Hd2) Hrest]; subst.
    constructor; [|apply IH, Hrest].
    unfold emb_matches. rewrite Hk2, Hn2, Hd2. auto.
Qed.

(** On valid arguments the constructor returns a well-formed model. *)
Lemma init_returns (num_users num_items : Z) (hp : WideAndDeepHyperParams F) :
  valid_config module_name_ok num_users num_items hp = true ->
  returns (__init__ (G:=G) module_name_ok num_users num_items hp)
    (built_from num_users num_items hp).
Proof.
  unfold valid_config. intros Hv.
  do 10 (apply andb_prop in Hv as [Hv ?]).
  rename Hv into Hnu.
  match goal with Hx : (0 <? _) = true |- _ => apply Z.ltb_lt in Hx; rename Hx into Hcr end.
  unfold __init__.
  eapply returns_bind; [apply Embedding_new_returns; eassumption|].
  intros ue (Hue & Hue_n & Hue_d).
  eapply returns_bind; [apply Embedding_new_returns; eassumption|].
  intros ie (Hie & Hie_n & Hie_d).
  eapply returns_bind; [apply new_additional_embs_returns; eassumption|].
  intros embs0 Hembs0.
  eapply returns_bind.
  { apply init_additional_embs_returns.
    clear -Hembs0. induction Hembs0 as [|? ? ? ? (_ & Hwf & _) _ IH]; constructor; auto. }
  intros [embs total] [Hembs Htotal]. cbn [fst snd] in Hembs, Htotal.
  assert (Hmatch : Forall2 emb_matches (dnn_additional_embeddings_sizes hp) embs)
    by (eapply emb_matches_kept; eassumption).
  assert (Hwf : Forall (fun ke => wf_embedding ke.2) embs).
  { clear -Hembs. induction Hembs as [|? ? ? ? (_ & Hwf & _) _ IH]; constructor; auto. }
  assert (Hsum : sum_dims embs
                 = foldr (fun kv acc => kv.2.2 + acc) 0 (dnn_additional_embeddings_sizes hp))
    by (apply sum_dims_matches, Hmatch).
  rewrite (sum_dims_kept _ _ Hembs) in Hsum.
  assert (Hprev : dnn_cont_features hp + total = deep_input_width hp).
  { unfold deep_input_width. rewrite Htotal, Hsum. lia. }
  rewrite Hprev.
  eapply returns_bind.
  { apply build_deep_returns; [eassumption|eassumption|].
    intros Hne. destruct (dnn_hidden_units hp); [congruence | assumption]. }
  intros [layers prev_output] [Hout Hchain]. cbn [fst snd] in Hout, Hchain.
  assert (Hout_ok : size_ok prev_output = true).
  { rewrite Hout. apply last_size_ok; assumption. }
  eapply returns_bind; [apply Linear_new_returns; [|reflexivity]|].
  { rewrite Hout. eassumption. }
  intros out (w & b & -> & (Hw & Hwr & Hwc) & Hb).
  apply returns_ret. unfold built_from, wf_model; simpl.
  repeat match goal with Hx : size_ok _ = true |- _ => apply size_ok_spec in Hx end.
  destruct (sum_dims_width embs Hwf) as [Hs0 Hsw].
  pose proof Hue as (? & ? & ? & ? & Huc). pose proof Hie as (? & ? & ? & ? & Hic).
  refine (conj (conj Hue (conj Hie (conj Hwf (conj _ (conj _ (conj _ _))))))
            (conj eq_refl (conj eq_refl (conj eq_refl (conj Hue_n (conj Hie_n Hmatch)))))).
  { unfold in_int64, int64_min. apply andb_true_intro; split; apply Z.leb_le; lia. }
  { rewrite Hout in *. unfold deep_output_width in *. lia. }
  { lia. }
  exists (Z.to_nat prev_output). split.
  - unfold embed_width; simpl. rewrite Huc, Hic, Hsw.
    replace (Z.to_nat (dnn_cont_features hp) + (Z.to_nat (embedding_dim ue)
             + (Z.to_nat (embedding_dim ie) + Z.to_nat (sum_dims embs))))%nat
      with (Z.to_nat (deep_input_width hp)); [exact Hchain|].
    rewrite (sum_dims_kept _ _ Hembs) in Hs0 |- *.
    rewrite <- Hprev, Htotal, Hue_d, Hie_d. lia.
  - eexists _, _, w, b. split; [reflexivity|].
    unfold has_shape. rewrite Hwr, Hwc, Hb. repeat split; auto; lia.
Qed.

End Constructor.

(** ** Shapes of tensor operations *)

Lemma traverse_Forall2 {A B} (f : A -> result B) (Q : A -> B -> Prop) (l : list A) :
  Forall (fun a => exists b, f a = Ok b /\ Q a b) l ->
  exists bs, traverse f l = Ok bs /\ Forall2 Q l bs.
Proof.
  induction 1 as [|a l (b & Hb & HQ) _ (bs & Hbs & HQs)]; simpl.
  - exists []. split; [reflexivity | constructor].
  - exists (b :: bs). rewrite Hb; simpl. rewrite Hbs; simpl.
    split; [reflexivity | constructor; assumption].
Qed.

Lemma zip_with_app_widths {A} (xs ys : list (list A)) (cx cy : nat) :
  Forall (fun r => length r = cx) xs ->
  Forall (fun r => length r = cy) ys ->
  Forall (fun r => length r = (cx + cy)%nat) (zip_with app xs ys).
Proof.
  intros Hxs. revert ys. induction Hxs as [|x xs Hx _ IH]; intros ys Hys; simpl.
  - constructor.
  - destruct Hys as [|y ys Hy Hys]; constructor.
    + rewrite length_app. lia.
    + apply IH, Hys.
Qed.

Lemma cat2_shape {A} (x y : Tensor A) (n cx cy : nat) :
  has_shape x n cx -> has_shape y n cy ->
  exists t, cat2 x y = Ok t /\ has_shape t n (cx + cy).
Proof.
  intros (Hx & Hxr & Hxc) (Hy & Hyr & Hyc). unfold cat2.
  rewrite Hxr, Hyr, Nat.eqb_refl. eexists. split; [reflexivity|].
  unfold has_shape, wf_tensor, nrows in *; simpl. rewrite Hxc, Hyc in *.
  split; [apply zip_with_app_widths; assumption|].
  split; [|reflexivity]. rewrite length_zip_with. lia.
Qed.

Lemma cat2_Ok_shape {A} (x y t : Tensor A) :
  cat2 x y = Ok t -> nrows x = nrows y /\ ncols t = (ncols x + ncols y)%nat.
Proof.
  unfold cat2. destruct (Nat.eqb_spec (nrows x) (nrows y)); [|discriminate].
  intros [= <-]. auto.
Qed.

Lemma cat_shape {A} (t0 : Tensor A) (ts : list (Tensor A)) (n : nat) :
  Forall (fun t => wf_tensor t /\ nrows t = n) (t0 :: ts) ->
  exists t, cat (t0 :: ts) = Ok t /\ has_shape t n (sum_list (map ncols (t0 :: ts))).
Proof.
  revert t0. induction ts as [|t1 ts IH]; intros t0 Hts.
  - apply Forall_cons in Hts as [[Hwf Hn] _]. exists t0. simpl.
    split; [reflexivity|]. unfold has_shape. rewrite Nat.add_0_r. auto.
  - apply Forall_cons in Hts as [[Hwf Hn] Hts].
    destruct (IH t1 Hts) as (r & Hr & Hshape).
    destruct (cat2_shape t0 r n (ncols t0) _ (conj Hwf (conj Hn eq_refl)) Hshape)
      as (t & Ht & Hshape').
    exists t. split; [|exact Hshape'].
    change (cat (t0 :: t1 :: ts)) with (rbind (cat (t1 :: ts)) (fun r => cat2 t0 r)).
    rewrite Hr. exact Ht.
Qed.

Lemma tmap_shape {A B} (f : A -> B) (t : Tensor A) (n c : nat) :
  has_shape t n c -> has_shape (tmap f t) n c.
Proof.
  intros (Hwf & Hn & Hc). unfold has_shape, wf_tensor, nrows in *; simpl.
  rewrite length_map. split; [|auto].
  apply Forall_fmap. eapply Forall_impl; [exact Hwf|]. simpl.
  intros r Hr. rewrite length_map. exact Hr.
Qed.

Lemma one_hot_shape (idx : list Z) (dim : Z) :
  0 < dim -> Forall (fun i => 0 <= i < dim) idx ->
  exists t, one_hot idx dim = Ok t /\ has_shape t (length idx) (Z.to_nat dim).
Proof.
  intros Hdim Hidx. eexists. split; [apply one_hot_Ok; assumption|].
  unfold has_shape, wf_tensor, nrows; simpl. rewrite length_map.
  split; [|auto]. apply Forall_fmap, Forall_forall. intros i _. simpl.
  apply one_hot_row_length.
Qed.
(** ** The layers *)

Section Forward.

Context {F G : Type} `{Scalar F} `{Generator F G}.

Lemma embedding_row_Ok (w : Tensor F) (i : Z) :
  wf_tensor w -> 0 <= i < Z.of_nat (nrows w) ->
  exists r, embedding_row w i = Ok r /\ length r = ncols w.
Proof.
  intros Hwf [Hlo Hhi]. unfold embedding_row.
  destruct (Z.leb_spec 0 i); [|lia]. destruct (Z.ltb_spec i (Z.of_nat (nrows w))); [|lia].
  simpl. destruct (lookup_lt_is_Some_2 (rows w) (Z.to_nat i)) as [r Hr].
  { unfold nrows in Hhi. lia. }
  rewrite Hr. exists r. split; [reflexivity|].
  unfold wf_tensor in Hwf. rewrite Forall_lookup in Hwf. exact (Hwf _ _ Hr).
Qed.

Lemma embedding_shape (e : Embedding F) (idx : list Z) :
  wf_tensor (weight e) -> indices_ok e idx ->
  exists t, embedding e idx = Ok t /\ has_shape t (length idx) (ncols (weight e)).
Proof.
  intros Hwf Hidx. unfold embedding.
  destruct (traverse_Forall2 (embedding_row (weight e))
              (fun _ r => length r = ncols (weight e)) idx) as (rs & Hrs & Hlen).
  { eapply Forall_impl; [exact Hidx|]. intros i Hi. apply embedding_row_Ok; assumption. }
  rewrite Hrs. simpl. eexists. split; [reflexivity|].
  unfold has_shape, wf_tensor, nrows; simpl.
  split; [|split; [symmetry; exact (Forall2_length _ _ _ Hlen) | reflexivity]].
  clear -Hlen. induction Hlen; constructor; auto.
Qed.

Lemma linear_shape (w : Tensor F) (b : list F) (x : Tensor F) (n : nat) :
  has_shape x n (ncols w) -> length b = nrows w ->
  exists y, linear w b x = Ok y /\ has_shape y n (nrows w).
Proof.
  intros (Hx & Hn & Hc) Hb. unfold linear.
  rewrite Hc, Hb, !Nat.eqb_refl. simpl. eexists. split; [reflexivity|].
  unfold has_shape, wf_tensor; simpl. unfold nrows at 2; simpl. rewrite length_map.
  split; [|auto]. apply Forall_fmap, Forall_forall. intros r _. simpl.
  rewrite length_zip_with, length_map. unfold nrows in *. lia.
Qed.

Lemma draw_bernoulli_returns (p : F) :
  returns (draw_bernoulli (G:=G) p) (fun _ => True).
Proof.
  intros s. unfold draw_bernoulli. destruct (bernoulli p (generator s)) as [b g].
  eexists _, _. split; [reflexivity | exact I].
Qed.

Lemma dropout_row_returns (p : F) (r : list F) :
  returns (dropout_row (G:=G) p r) (fun r' => length r' = length r).
Proof.
  unfold dropout_row.
  eapply returns_bind; [apply returns_replicateM, draw_bernoulli_returns|].
  intros noise [Hlen _]. apply returns_ret.
  rewrite length_zip_with. lia.
Qed.

Lemma dropout_returns (p : F) (training : bool) (x : Tensor F) (n c : nat) :
  dropout_ok p = true -> has_shape x n c ->
  returns (dropout (G:=G) p training x) (fun y => has_shape y n c).
Proof.
  unfold dropout_ok, dropout. intros Hp Hx.
  destruct (fltb p f0 || fltb f1 p); [discriminate|].
  destruct (negb training || feqb p f0 || (numel x =? 0)%nat); [apply returns_ret, Hx|].
  destruct (feqb p f1); [apply returns_ret, tmap_shape, Hx|].
  eapply returns_bind.
  - apply (returns_traverseM _ (fun r r' => length r' = length r)).
    apply Forall_forall. intros r _. apply dropout_row_returns.
  - intros rs Hrs. apply returns_ret.
    destruct Hx as (Hwf & Hn & Hc). unfold has_shape, wf_tensor, nrows in *; simpl.
    split; [|split; [rewrite <- Hn; symmetry; exact (Forall2_length _ _ _ Hrs) | exact Hc]].
    clear -Hwf Hrs Hc. induction Hrs as [|r r' rs rs' Hr _ IH]; constructor.
    + apply Forall_cons in Hwf as [Hwf _]. lia.
    + apply IH. apply Forall_cons in Hwf as [_ Hwf]. exact Hwf.
Qed.

Lemma sequential_returns (ls : list (Layer F)) (x : Tensor F) (n inw outw : nat) :
  chain ls inw outw -> has_shape x n inw ->
  returns (sequential (G:=G) ls x) (fun y => has_shape y n outw).
Proof.
  revert x inw. induction ls as [|l ls IH]; intros x inw Hchain Hx.
  - simpl in Hchain. subst outw. apply returns_ret, Hx.
  - cbn [sequential]. destruct l as [inf outf w b|p training| |]; simpl in Hchain.
    + destruct Hchain as (Hw & Hwc & Hb & Hchain). subst inw.
      destruct (linear_shape w b x n Hx Hb) as (y & Hy & Hshape).
      apply (returns_bind _ _ (fun y => has_shape y n (nrows w)));
        [exact (returns_lift _ y _ Hy Hshape)|].
      intros y' Hy'. eapply IH; eassumption.
    + destruct Hchain as [Hp Hchain].
      eapply returns_bind; [apply dropout_returns; eassumption|].
      intros y Hy. eapply IH; eassumption.
    + apply (returns_bind _ _ (fun y => has_shape y n inw));
        [apply returns_ret, tmap_shape, Hx|].
      intros y Hy. eapply IH; eassumption.
    + apply (returns_bind _ _ (fun y => has_shape y n inw));
        [apply returns_ret, tmap_shape, Hx|].
      intros y Hy. eapply IH; eassumption.
Qed.


Lemma returns_lift_eq {S A} (r : result A) (a : A) :
  r = Ok a -> returns (S:=S) (lift r) (fun t => t = a).
Proof. intros Hr. exact (returns_lift r a _ Hr eq_refl). Qed.

Ltac step_lift Hr :=
  eapply returns_bind; [exact (returns_lift_eq _ _ Hr)|]; intros ? ->.

Lemma extra_embeddings_shape (embs : list (string * Embedding F))
    (ae : gmap string (list Z)) (n : nat) :
  Forall (fun ke => wf_embedding ke.2) embs ->
  Forall (fun ke => exists t, ae !! ke.1 = Some t /\ length t = n /\ indices_ok ke.2 t) embs ->
  exists extra,
    traverse (fun '(k, emb) => let? t := lookup_key ae k in embedding emb t) embs = Ok extra
    /\ Forall (fun t => wf_tensor t /\ nrows t = n) extra
    /\ sum_list (map ncols extra) = sum_list (map (fun ke => ncols (weight ke.2)) embs).
Proof.
  intros Hwf Hin.
  destruct (traverse_Forall2
              (fun '(k, emb) => let? t := lookup_key ae k in embedding emb t)
              (fun ke t => has_shape t n (ncols (weight ke.2))) embs)
    as (extra & Hextra & Hshape).
  { rewrite Forall_forall in Hwf, Hin. apply Forall_forall. intros [k e] Hke.
    destruct (Hin _ Hke) as (t & Ht & Hlen & Hidx). simpl in Ht, Hidx.
    destruct (Hwf _ Hke) as (_ & _ & Hw & _). simpl in Hw.
    destruct (embedding_shape e t Hw Hidx) as (r & Hr & Hrs).
    exists r. unfold lookup_key. rewrite Ht. simpl. rewrite Hr, <- Hlen. auto. }
  exists extra. split; [exact Hextra|].
  clear -Hshape. induction Hshape as [|ke t embs extra (Hw & Hn & Hc) _ [IH1 IH2]]; simpl.
  - split; [constructor | reflexivity].
  - split; [constructor; auto|]. rewrite Hc, IH2. reflexivity.
Qed.

(** On a valid batch a well-formed model returns one score per row. *)
Lemma forward_returns (m : WideAndDeepModel F) (interactions : list (Z * Z))
    (ae : gmap string (list Z)) (cf : option (Tensor F)) (g : G) :
  wf_model m -> valid_batch m interactions ae cf ->
  exists out s',
    forward interactions ae cf (mkState m g) = (Ok out, s')
    /\ has_shape out (length interactions) 1.
Proof.
  intros (Hue & Hie & Hembs & Hn & [Hcr Hcrmax] & Hcont & dout & Hdeep
          & inf & outf & w & b & Hhd & (Hhw & Hhr & Hhc) & Hhb)
         (Hu & Hi & Hextra & Hcf).
  assert (Hhead : chain (head m) (Z.to_nat (crossed_feat_dim (hparams m)) + dout) 1).
  { rewrite Hhd. simpl. rewrite Hhr. auto. }
  clear inf outf w b Hhd Hhw Hhr Hhc Hhb.
  unfold forward. rewrite bind_gets. cbn [self].
  match goal with
  | |- exists out s', ?c ?s = _ /\ _ =>
      enough (Hr : returns c (fun out => has_shape out (length interactions) 1))
        by (destruct (Hr s) as (out & s' & ? & ?); eauto)
  end.
  set (n := length interactions).
  destruct Hue as (_ & _ & Huw & _). destruct Hie as (_ & _ & Hiw & _).
  destruct (embedding_shape _ _ Huw Hu) as (u & Hue & Hus).
  destruct (embedding_shape _ _ Hiw Hi) as (i & Hie & His).
  rewrite !length_map in Hus, His. fold n in Hus, His.
  destruct (extra_embeddings_shape _ ae n Hembs Hextra) as (extra & Hex & Hexs & Hexw).
  step_lift Hue. step_lift Hie. step_lift Hex.
  destruct (cat_shape u (i :: extra) n) as (all_embed & Hall & Halls).
  { destruct Hus as (? & ? & _), His as (? & ? & _). repeat constructor; auto. }
  step_lift Hall.
  assert (Hw : has_shape all_embed n (embed_width m)).
  { unfold embed_width. destruct Hus as (_ & _ & <-), His as (_ & _ & <-).
    rewrite <- Hexw. exact Halls. }
  clear Halls.
  assert (Hd : in_int64 (crossed_feat_dim (hparams m)) = true).
  { unfold in_int64, int64_min. apply andb_true_intro; split; apply Z.leb_le; lia. }
  pose proof (cross_product_idx_eq (n_items m) (crossed_feat_dim (hparams m))
                interactions Hn Hd ltac:(lia)) as Hidx.
  step_lift Hidx.
  destruct (one_hot_shape (map (bucket (n_items m) (crossed_feat_dim (hparams m)))
                             interactions) (crossed_feat_dim (hparams m)) Hcr)
    as (cross & Hcross & Hcs).
  { apply Forall_fmap, Forall_forall. intros ui _. apply bucket_range, Hcr. }
  rewrite length_map in Hcs. fold n in Hcs.
  step_lift Hcross.
  apply (returns_bind _ _
           (fun x => has_shape x n
                       (Z.to_nat (dnn_cont_features (hparams m)) + embed_width m))).
  { rewrite Z.gtb_ltb. destruct (Z.ltb_spec 0 (dnn_cont_features (hparams m))) as [Hpos|Hle].
    - destruct (Hcf Hpos) as (c & -> & Hc).
      destruct (cat_shape c [all_embed] n) as (x & Hx & Hxs).
      { destruct Hc as (? & ? & _), Hw as (? & ? & _). repeat constructor; auto. }
      eapply returns_lift; [exact Hx|].
      simpl in Hxs. destruct Hc as (_ & _ & Hcc), Hw as (_ & _ & Hwc).
      rewrite Hcc, Hwc, Nat.add_0_r in Hxs. exact Hxs.
    - apply returns_ret. replace (dnn_cont_features (hparams m)) with 0 by lia.
      exact Hw. }
  intros deep_input Hdi.
  eapply returns_bind; [eapply sequential_returns; eassumption|].
  intros deep_output Hdo.
  destruct (cat_shape (tmap of_int cross) [deep_output] n) as (wd & Hwd & Hwds).
  { pose proof (tmap_shape of_int _ _ _ Hcs) as (? & ? & _).
    destruct Hdo as (? & ? & _). repeat constructor; auto. }
  step_lift Hwd.
  eapply sequential_returns; [exact Hhead|].
  simpl in Hwds. destruct Hcs as (_ & _ & Hcc), Hdo as (_ & _ & Hdc).
  rewrite Hcc, Hdc, Nat.add_0_r in Hwds. exact Hwds.
Qed.


(** *** The model object is only read *)

Lemma preserves_ret {A} (a : A) : preserves_self (F:=F) (G:=G) (ret a).
Proof. intros s. reflexivity. Qed.

Lemma preserves_raise {A} (e : error) : preserves_self (F:=F) (G:=G) (A:=A) (raise e).
Proof. intros s. reflexivity. Qed.

Lemma preserves_lift {A} (r : result A) : preserves_self (F:=F) (G:=G) (lift r).
Proof. intros s. reflexivity. Qed.

Lemma preserves_gets {A} (f : ModuleState F G -> A) : preserves_self (gets f).
Proof. intros s. reflexivity. Qed.

Lemma preserves_draw_bernoulli (p : F) : preserves_self (draw_bernoulli (G:=G) p).
Proof.
  intros s. unfold draw_bernoulli. destruct (bernoulli p (generator s)). reflexivity.
Qed.

Lemma preserves_bind {A B} (c : M (ModuleState F G) A) (k : A -> M (ModuleState F G) B) :
  preserves_self c -> (forall a, preserves_self (k a)) -> preserves_self (bind c k).
Proof.
  intros Hc Hk s. unfold bind. specialize (Hc s).
  destruct (c s) as [[a|e] s1]; simpl in Hc.
  - rewrite Hk. exact Hc.
  - exact Hc.
Qed.

Lemma preserves_replicateM {A} (n : nat) (c : M (ModuleState F G) A) :
  preserves_self c -> preserves_self (replicateM n c).
Proof.
  intros Hc. induction n as [|n IH]; simpl; [apply preserves_ret|].
  apply preserves_bind; [exact Hc|]. intros a.
  apply preserves_bind; [exact IH|]. intros l. apply preserves_ret.
Qed.

Lemma preserves_traverseM {A B} (f : A -> M (ModuleState F G) B) (l : list A) :
  (forall a, preserves_self (f a)) -> preserves_self (traverseM f l).
Proof.
  intros Hf. induction l as [|a l IH]; simpl; [apply preserves_ret|].
  apply preserves_bind; [apply Hf|]. intros b.
  apply preserves_bind; [exact IH|]. intros bs. apply preserves_ret.
Qed.

Lemma preserves_dropout (p : F) (training : bool) (x : Tensor F) :
  preserves_self (dropout (G:=G) p training x).
Proof.
  unfold dropout.
  destruct (fltb p f0 || fltb f1 p); [apply preserves_raise|].
  destruct (negb training || feqb p f0 || (numel x =? 0)%nat); [apply preserves_ret|].
  destruct (feqb p f1); [apply preserves_ret|].
  apply preserves_bind.
  - apply preserves_traverseM. intros r. unfold dropout_row.
    apply preserves_bind; [apply preserves_replicateM, preserves_draw_bernoulli|].
    intros noise. apply preserves_ret.
  - intros rs. apply preserves_ret.
Qed.

Lemma preserves_sequential (ls : list (Layer F)) (x : Tensor F) :
  preserves_self (sequential (G:=G) ls x).
Proof.
  revert x. induction ls as [|l ls IH]; intros x; simpl; [apply preserves_ret|].
  apply preserves_bind; [|intros y; apply IH].
  destruct l; simpl;
    [apply preserves_lift | apply preserves_dropout | apply preserves_ret | apply preserves_ret].
Qed.

Lemma preserves_forward (interactions : list (Z * Z)) (ae : gmap string (list Z))
    (cf : option (Tensor F)) :
  preserves_self (forward (G:=G) interactions ae cf).
Proof.
  unfold forward.
  apply preserves_bind; [apply preserves_gets|]. intros m.
  apply preserves_bind; [apply preserves_lift|]. intros u.
  apply preserves_bind; [apply preserves_lift|]. intros i.
  apply preserves_bind; [apply preserves_lift|]. intros extra.
  apply preserves_bind; [apply preserves_lift|]. intros all_embed.
  apply preserves_bind; [apply preserves_lift|]. intros idx.
  apply preserves_bind; [apply preserves_lift|]. intros cross_product.
  apply preserves_bind.
  { destruct (dnn_cont_features (hparams m) >? 0); [|apply preserves_ret].
    destruct cf; [apply preserves_lift | apply preserves_raise]. }
  intros deep_input.
  apply preserves_bind; [apply preserves_sequential|]. intros deep_output.
  apply preserves_bind; [apply preserves_lift|]. intros wide_deep.
  apply preserves_sequential.
Qed.

(** *** In evaluation mode the generator is not used *)

Lemma stateless_dropout (p : F) (training : bool) (x : Tensor F) :
  negb training || feqb p f0 = true ->
  stateless (dropout (G:=G) p training x).
Proof.
  intros Hquiet. unfold dropout.
  destruct (fltb p f0 || fltb f1 p); [apply stateless_raise|].
  rewrite Hquiet. simpl. apply stateless_ret.
Qed.

Lemma stateless_sequential (ls : list (Layer F)) (x : Tensor F) :
  forallb draws_nothing ls = true -> stateless (sequential (G:=G) ls x).
Proof.
  revert x. induction ls as [|l ls IH]; intros x Hls; simpl; [apply stateless_ret|].
  simpl in Hls. apply andb_prop in Hls as [Hl Hls].
  apply stateless_bind; [|intros y; apply IH, Hls].
  destruct l as [? ? w b|p training| |]; simpl.
  - apply stateless_lift.
  - apply stateless_dropout, Hl.
  - apply stateless_ret.
  - apply stateless_ret.
Qed.

Lemma eval_draws_nothing (ls : list (Layer F)) :
  forallb draws_nothing (map (set_training false) ls) = true.
Proof.
  induction ls as [|l ls IH]; simpl; [reflexivity|].
  rewrite IH, andb_true_r. destruct l; reflexivity.
Qed.

(** When no layer draws random numbers, the result of [forward] is a
    function of the model and of the batch alone, and the module state is
    unchanged. *)
Lemma forward_eval_stateless (m : WideAndDeepModel F) (interactions : list (Z * Z))
    (ae : gmap string (list Z)) (cf : option (Tensor F)) :
  forallb draws_nothing (deep m) = true ->
  forallb draws_nothing (head m) = true ->
  exists r, forall g : G,
    forward interactions ae cf (mkState m g) = (r, mkState m g).
Proof.
  intros Hdeep Hhead. unfold forward.
  match goal with |- context [bind (gets self) ?k] => set (body := k) end.
  assert (Hk : stateless (body m)).
  { subst body. cbv beta.
    apply stateless_bind; [apply stateless_lift|]. intros u.
    apply stateless_bind; [apply stateless_lift|]. intros i.
    apply stateless_bind; [apply stateless_lift|]. intros extra.
    apply stateless_bind; [apply stateless_lift|]. intros all_embed.
    apply stateless_bind; [apply stateless_lift|]. intros idx.
    apply stateless_bind; [apply stateless_lift|]. intros cross_product.
    apply stateless_bind.
    { destruct (dnn_cont_features (hparams m) >? 0); [|apply stateless_ret].
      destruct cf; [apply stateless_lift | apply stateless_raise]. }
    intros deep_input.
    apply stateless_bind; [apply stateless_sequential, Hdeep|]. intros deep_output.
    apply stateless_bind; [apply stateless_lift|]. intros wide_deep.
    apply stateless_sequential, Hhead. }
  destruct Hk as [r Hr]. exists r. intros g. rewrite bind_gets. apply Hr.
Qed.


(** *** Training and evaluation mode *)

Lemma chain_set_training (mode : bool) (ls : list (Layer F)) (inw outw : nat) :
  chain ls inw outw -> chain (map (set_training mode) ls) inw outw.
Proof.
  revert inw. induction ls as [|l ls IH]; intros inw Hc; [exact Hc|].
  destruct l as [? ? w b|p training| |]; simpl in *.
  - destruct Hc as (? & ? & ? & Hc). auto.
  - destruct Hc as (? & Hc). auto.
  - auto.
  - auto.
Qed.

Lemma wf_model_train (mode : bool) (m : WideAndDeepModel F) :
  wf_model m -> wf_model (train mode m).
Proof.
  intros (Hue & Hie & Hembs & Hn & Hcr & Hcont & dout & Hdeep
          & inf & outf & w & b & Hhd & Hw & Hb).
  unfold wf_model; simpl.
  refine (conj Hue (conj Hie (conj Hembs (conj Hn (conj Hcr (conj Hcont _)))))).
  exists dout. split; [apply chain_set_training; assumption|].
  exists inf, outf, w, b. rewrite Hhd. auto.
Qed.

(** C3. At inference time, that is on a model put in evaluation mode,
    [forward] is deterministic: its result does not depend on the state of
    the random generator, it leaves the module state as it was, and a
    second call on the same batch returns the same result as the first. *)
Theorem forward_deterministic (m : WideAndDeepModel F) (interactions : list (Z * Z))
    (ae : gmap string (list Z)) (cf : option (Tensor F)) (g g' : G) :
  let first := forward interactions ae cf (mkState (eval m) g) in
  let second := forward interactions ae cf first.2 in
  second.1 = first.1
  /\ first.2 = mkState (eval m) g
  /\ (forward interactions ae cf (mkState (eval m) g')).1 = first.1.
Proof.
  destruct (forward_eval_stateless (eval m) interactions ae cf
              (eval_draws_nothing (deep m)) (eval_draws_nothing (head m))) as [r Hr].
  cbv zeta. rewrite !Hr. simpl. rewrite Hr. auto.
Qed.

(** C10. [forward] never modifies the model: after any call, successful or
    not, the model object of the module state, and so the user, item and
    additional embedding tables, the layers of the deep stack and the
    layers of the head, are what they were before the call. *)
Theorem forward_preserves_parameters (interactions : list (Z * Z))
    (ae : gmap string (list Z)) (cf : option (Tensor F)) (s : ModuleState F G) :
  let s' := (forward interactions ae cf s).2 in
  self s' = self s
  /\ users_emb (self s') = users_emb (self s)
  /\ items_emb (self s') = items_emb (self s)
  /\ additional_embs (self s') = additional_embs (self s)
  /\ deep (self s') = deep (self s)
  /\ head (self s') = head (self s).
Proof.
  cbv zeta. rewrite (preserves_forward interactions ae cf s). auto 10.
Qed.


(** *** Missing inputs *)

Lemma embedding_total (e : Embedding F) (idx : list Z) :
  indices_ok e idx -> exists t, embedding e idx = Ok t.
Proof.
  intros Hidx. unfold embedding.
  destruct (traverse_Forall2 (embedding_row (weight e)) (fun _ _ => True) idx)
    as (rs & Hrs & _).
  { eapply Forall_impl; [exact Hidx|]. intros i [Hlo Hhi]. unfold embedding_row.
    destruct (Z.leb_spec 0 i); [|lia].
    destruct (Z.ltb_spec i (Z.of_nat (nrows (weight e)))); [|lia]. simpl.
    destruct (lookup_lt_is_Some_2 (rows (weight e)) (Z.to_nat i)) as [r Hr].
    { unfold nrows in Hhi. lia. }
    rewrite Hr. eauto. }
  rewrite Hrs. simpl. eauto.
Qed.

Lemma extra_missing_not_Ok (embs : list (string * Embedding F))
    (ae : gmap string (list Z)) (k : string) (extra : list (Tensor F)) :
  k ∈ map fst embs -> ae !! k = None ->
  traverse (fun '(k, emb) => let? t := lookup_key ae k in embedding emb t) embs
  <> Ok extra.
Proof.
  intros Hk Hnone Hok. apply traverse_Ok_Forall2 in Hok.
  apply list_elem_of_fmap in Hk as ([k' e] & -> & Hin). simpl in Hnone.
  apply list_elem_of_lookup in Hin as [i Hi].
  destruct (Forall2_lookup_l _ _ _ _ _ Hok Hi) as (t & _ & Ht).
  unfold lookup_key in Ht. rewrite Hnone in Ht. discriminate.
Qed.

Lemma extra_missing_KeyError (embs : list (string * Embedding F))
    (ae : gmap string (list Z)) (k : string) :
  k ∈ map fst embs -> ae !! k = None ->
  Forall (fun ke => forall t, ae !! ke.1 = Some t -> indices_ok ke.2 t) embs ->
  exists k', k' ∈ map fst embs /\ ae !! k' = None
    /\ traverse (fun '(k, emb) => let? t := lookup_key ae k in embedding emb t) embs
       = Raise (KeyError k').
Proof.
  intros Hk Hnone Hidx. induction Hidx as [|[k0 e0] embs Hke _ IH].
  - simpl in Hk. apply elem_of_nil in Hk. contradiction.
  - simpl in Hke. cbn [traverse]. unfold lookup_key at 1.
    destruct (ae !! k0) as [t|] eqn:Hk0.
    + destruct (embedding_total e0 t (Hke t eq_refl)) as (r & Hr).
      simpl. rewrite Hr. simpl.
      simpl in Hk. apply elem_of_cons in Hk as [->|Hk]; [congruence|].
      destruct (IH Hk) as (k' & Hin & Hnone' & Hraise).
      exists k'. rewrite Hraise. simpl. split; [right; exact Hin | auto].
    + exists k0. simpl. split; [left | auto].
Qed.

(** C7. When [forward] is called with an [additional_embeddings] mapping
    that omits a declared feature name, it never returns a result; and when
    the indices it is given are inside their tables, what it raises is the
    missing-key error of the first declared name that is absent, with the
    module state untouched. *)
Theorem forward_missing_key (m : WideAndDeepModel F) (interactions : list (Z * Z))
    (ae : gmap string (list Z)) (cf : option (Tensor F)) (g : G) (k : string) :
  k ∈ map fst (additional_embs m) ->
  ae !! k = None ->
  (forall out s', forward interactions ae cf (mkState m g) <> (Ok out, s'))
  /\ (indices_ok (users_emb m) (map fst interactions) ->
      indices_ok (items_emb m) (map snd interactions) ->
      Forall (fun ke => forall t, ae !! ke.1 = Some t -> indices_ok ke.2 t)
        (additional_embs m) ->
      exists k', k' ∈ map fst (additional_embs m) /\ ae !! k' = None
        /\ forward interactions ae cf (mkState m g)
           = (Raise (KeyError k'), mkState m g)).
Proof.
  intros Hk Hnone. split.
  - intros out s' Hok. unfold forward in Hok. rewrite bind_gets in Hok. cbn [self] in Hok.
    apply bind_Ok_inv in Hok as (u & s1 & _ & Hok).
    apply bind_Ok_inv in Hok as (i & s2 & _ & Hok).
    apply bind_Ok_inv in Hok as (extra & s3 & Hextra & _).
    unfold lift in Hextra. injection Hextra as Hextra _.
    exact (extra_missing_not_Ok _ _ _ _ Hk Hnone Hextra).
  - intros Hu Hi Hidx.
    destruct (embedding_total _ _ Hu) as (u & Hue).
    destruct (embedding_total _ _ Hi) as (i & Hie).
    destruct (extra_missing_KeyError _ _ _ Hk Hnone Hidx) as (k' & Hin & Hnone' & Hraise).
    exists k'. split; [exact Hin|]. split; [exact Hnone'|].
    unfold forward. rewrite bind_gets. cbn [self].
    rewrite (bind_lift_Ok _ _ _ _ Hue), (bind_lift_Ok _ _ _ _ Hie).
    apply bind_lift_Raise, Hraise.
Qed.

(** The condition of line 84 is all that looks at the continuous
    features. *)
Lemma forward_ignores_continuous (interactions : list (Z * Z))
    (ae : gmap string (list Z)) (cf : option (Tensor F)) (s : ModuleState F G) :
  dnn_cont_features (hparams (self s)) <= 0 ->
  forward interactions ae cf s = forward interactions ae None s.
Proof.
  intros Hle. unfold forward. rewrite !bind_gets.
  destruct (Z.gtb_spec (dnn_cont_features (hparams (self s))) 0); [lia | reflexivity].
Qed.

Lemma forward_None_raises (interactions : list (Z * Z))
    (ae : gmap string (list Z)) (s : ModuleState F G) :
  0 < dnn_cont_features (hparams (self s)) ->
  exists e, forward interactions ae None s = (Raise e, s).
Proof.
  intros Hpos. unfold forward. rewrite bind_gets.
  destruct (Z.gtb_spec (dnn_cont_features (hparams (self s))) 0); [|lia].
  repeat match goal with
  | |- exists e, bind (lift ?r) ?k ?s = _ =>
      destruct r as [?|?];
      [rewrite (bind_lift_Ok _ _ _ _ eq_refl) | eexists; reflexivity]
  end.
  eexists. reflexivity.
Qed.


(** *** What a successful call says about its inputs *)

Lemma bind_lift_Ok_inv {S A B} (r : result A) (k : A -> M S B) (s s' : S) (b : B) :
  bind (lift r) k s = (Ok b, s') -> exists a, r = Ok a /\ k a s = (Ok b, s').
Proof.
  intros Hb. apply bind_Ok_inv in Hb as (a & s1 & Hr & Hk).
  unfold lift in Hr. injection Hr as -> <-. eauto.
Qed.

Lemma embedding_Ok_shape (e : Embedding F) (idx : list Z) (t : Tensor F) :
  embedding e idx = Ok t -> nrows t = length idx /\ ncols t = ncols (weight e).
Proof.
  unfold embedding. intros Ht. apply rbind_Ok in Ht as (rs & Hrs & Ht).
  injection Ht as <-. unfold nrows; simpl. split; [|reflexivity].
  exact (traverse_Ok_length _ _ _ Hrs).
Qed.

Lemma cat_Ok_shape {A} (t0 : Tensor A) (ts : list (Tensor A)) (t : Tensor A) :
  cat (t0 :: ts) = Ok t ->
  nrows t = nrows t0 /\ ncols t = sum_list (map ncols (t0 :: ts)).
Proof.
  revert t0 t. induction ts as [|t1 ts IH]; intros t0 t Ht.
  - injection Ht as <-. simpl. split; [reflexivity | lia].
  - change (cat (t0 :: t1 :: ts)) with (rbind (cat (t1 :: ts)) (fun r => cat2 t0 r)) in Ht.
    apply rbind_Ok in Ht as (r & Hr & Ht).
    destruct (IH _ _ Hr) as [_ Hc]. unfold cat2 in Ht.
    destruct (Nat.eqb_spec (nrows t0) (nrows r)) as [Heq|]; [|discriminate].
    injection Ht as <-. unfold nrows in *; simpl.
    rewrite length_zip_with. simpl in Hc. rewrite Hc. split; lia.
Qed.

Lemma extra_Ok_widths (embs : list (string * Embedding F)) (ae : gmap string (list Z))
    (extra : list (Tensor F)) :
  traverse (fun '(k, emb) => let? t := lookup_key ae k in embedding emb t) embs = Ok extra ->
  sum_list (map ncols extra) = sum_list (map (fun ke => ncols (weight ke.2)) embs).
Proof.
  intros Hex. apply traverse_Ok_Forall2 in Hex.
  induction Hex as [|[k e] t embs extra Ht _ IH]; simpl; [reflexivity|].
  apply rbind_Ok in Ht as (idx & _ & Ht).
  apply embedding_Ok_shape in Ht as [_ ->]. rewrite IH. reflexivity.
Qed.

Lemma one_hot_Ok_ncols (idx : list Z) (dim : Z) (t : Tensor Z) :
  0 < dim -> one_hot idx dim = Ok t -> ncols t = Z.to_nat dim.
Proof.
  intros Hdim. unfold one_hot. destruct idx as [|a l].
  - destruct (dim <=? 0); [discriminate|]. intros [= <-]. reflexivity.
  - destruct (list_min (a :: l) <? 0); [discriminate|].
    destruct (Z.eqb_spec dim (-1)); [lia|].
    destruct (list_max (a :: l) <? dim); [|discriminate].
    intros [= <-]. reflexivity.
Qed.

Lemma linear_Ok_ncols (w : Tensor F) (b : list F) (x y : Tensor F) :
  linear w b x = Ok y -> ncols x = ncols w /\ ncols y = nrows w.
Proof.
  unfold linear. destruct (Nat.eqb_spec (ncols x) (ncols w)); [|discriminate].
  destruct (length b =? nrows w)%nat; [|discriminate].
  intros [= <-]. auto.
Qed.

Lemma dropout_Ok_ncols (p : F) (training : bool) (x y : Tensor F)
    (s s' : ModuleState F G) :
  dropout p training x s = (Ok y, s') -> ncols y = ncols x.
Proof.
  unfold dropout.
  destruct (fltb p f0 || fltb f1 p); [discriminate|].
  destruct (negb training || feqb p f0 || (numel x =? 0)%nat); [intros [= <- _]; reflexivity|].
  destruct (feqb p f1); [intros [= <- _]; reflexivity|].
  intros Hy. apply bind_Ok_inv in Hy as (rs & s1 & _ & Hy).
  injection Hy as <- _. reflexivity.
Qed.

Lemma sequential_Ok_width (ls : list (Layer F)) (x y : Tensor F) (inw outw : nat)
    (s s' : ModuleState F G) :
  chain ls inw outw ->
  sequential ls x s = (Ok y, s') ->
  ncols x = inw /\ ncols y = outw \/ ncols y = ncols x /\ inw = outw.
Proof.
  revert x inw s. induction ls as [|l ls IH]; intros x inw s Hchain Hy.
  - injection Hy as <- _. right. auto.
  - cbn [sequential] in Hy. apply bind_Ok_inv in Hy as (y1 & s1 & Hl & Hy).
    destruct l as [? ? w b|p training| |]; simpl in Hchain, Hl.
    + destruct Hchain as (_ & Hwc & _ & Hchain).
      unfold lift in Hl. injection Hl as Hl _.
      apply linear_Ok_ncols in Hl as [Hx Hy1].
      destruct (IH _ _ _ Hchain Hy) as [[_ Hout]|[Hsame Hout]]; left; split; lia.
    + destruct Hchain as [_ Hchain]. apply dropout_Ok_ncols in Hl.
      destruct (IH _ _ _ Hchain Hy) as [[Hin Hout]|[Hsame Hout]]; [left | right];
        split; lia.
    + injection Hl as <- _.
      destruct (IH _ _ _ Hchain Hy) as [[Hin Hout]|[Hsame Hout]]; [left | right];
        simpl in *; split; lia.
    + injection Hl as <- _.
      destruct (IH _ _ _ Hchain Hy) as [[Hin Hout]|[Hsame Hout]]; [left | right];
        simpl in *; split; lia.
Qed.

(** A call that succeeds on a model with continuous features was given a
    matrix with one row per example and [dnn_cont_features] columns. *)
Lemma forward_Ok_continuous (m : WideAndDeepModel F) (interactions : list (Z * Z))
    (ae : gmap string (list Z)) (cf : option (Tensor F)) (g : G)
    (out : Tensor F) (s' : ModuleState F G) :
  wf_model m ->
  0 < dnn_cont_features (hparams m) ->
  forward interactions ae cf (mkState m g) = (Ok out, s') ->
  exists c, cf = Some c
    /\ nrows c = length interactions
    /\ ncols c = Z.to_nat (dnn_cont_features (hparams m)).
Proof.
  intros (_ & _ & _ & _ & [Hcr _] & _ & dout & Hdeep
          & inf & outf & w & b & Hhd & (_ & _ & Hhc) & _) Hpos Hok.
  unfold forward in Hok. rewrite bind_gets in Hok. cbn [self] in Hok.
  apply bind_lift_Ok_inv in Hok as (u & Hu & Hok).
  apply bind_lift_Ok_inv in Hok as (i & Hi & Hok).
  apply bind_lift_Ok_inv in Hok as (extra & Hextra & Hok).
  apply bind_lift_Ok_inv in Hok as (all_embed & Hall & Hok).
  apply bind_lift_Ok_inv in Hok as (idx & Hidx & Hok).
  apply bind_lift_Ok_inv in Hok as (cross & Hcross & Hok).
  destruct (Z.gtb_spec (dnn_cont_features (hparams m)) 0); [|lia].
  destruct cf as [c|]; [|discriminate].
  apply bind_lift_Ok_inv in Hok as (deep_input & Hdi & Hok).
  apply bind_Ok_inv in Hok as (deep_output & s1 & Hdo & Hok).
  apply bind_lift_Ok_inv in Hok as (wd & Hwd & Hok).
  exists c. split; [reflexivity|].
  apply embedding_Ok_shape in Hu as [Hur Huc], Hi as [_ Hic].
  apply extra_Ok_widths in Hextra.
  apply cat_Ok_shape in Hall as [Har Hac].
  assert (Haw : ncols all_embed = embed_width m).
  { rewrite Hac. unfold embed_width. simpl. rewrite Huc, Hic, Hextra. reflexivity. }
  pose proof (cat_Ok_shape _ _ _ Hdi) as [Hdr Hdc]. simpl in Hdc.
  change (cat [c; all_embed]) with (rbind (Ok all_embed) (fun r => cat2 c r)) in Hdi.
  simpl in Hdi. apply cat2_Ok_shape in Hdi as [Hcr' _].
  split; [rewrite Hcr', Har, Hur; apply length_map|].
  apply one_hot_Ok_ncols in Hcross; [|exact Hcr].
  apply cat_Ok_shape in Hwd as [_ Hwc]. simpl in Hwc.
  rewrite Hhd in Hok. cbn [sequential] in Hok.
  apply bind_lift_Ok_inv in Hok as (y & Hy & _).
  apply linear_Ok_ncols in Hy as [Hy _].
  destruct (sequential_Ok_width _ _ _ _ _ _ _ Hdeep Hdo) as [[Hin _]|[Hsame Hout]]; lia.
Qed.


(** Every score is a value of the logistic function: the head of a
    well-formed model ends with the sigmoid. *)
Lemma forward_Ok_sigmoid (m : WideAndDeepModel F) (interactions : list (Z * Z))
    (ae : gmap string (list Z)) (cf : option (Tensor F)) (g : G)
    (out : Tensor F) (s' : ModuleState F G) :
  wf_model m ->
  forward interactions ae cf (mkState m g) = (Ok out, s') ->
  exists y, out = tmap fsigmoid y.
Proof.
  intros (_ & _ & _ & _ & _ & _ & dout & _ & inf & outf & w & b & Hhd & _) Hok.
  unfold forward in Hok. rewrite bind_gets in Hok. cbn [self] in Hok.
  apply bind_lift_Ok_inv in Hok as (u & _ & Hok).
  apply bind_lift_Ok_inv in Hok as (i & _ & Hok).
  apply bind_lift_Ok_inv in Hok as (extra & _ & Hok).
  apply bind_lift_Ok_inv in Hok as (all_embed & _ & Hok).
  apply bind_lift_Ok_inv in Hok as (idx & _ & Hok).
  apply bind_lift_Ok_inv in Hok as (cross & _ & Hok).
  apply bind_Ok_inv in Hok as (deep_input & s1 & _ & Hok).
  apply bind_Ok_inv in Hok as (deep_output & s2 & _ & Hok).
  apply bind_Ok_inv in Hok as (wd & s3 & _ & Hok).
  rewrite Hhd in Hok. cbn [sequential apply_layer] in Hok.
  apply bind_lift_Ok_inv in Hok as (y & _ & Hok).
  injection Hok as <- _. exists y. reflexivity.
Qed.

(** C8. On a well-formed model (what the constructor returns): when
    [dnn_cont_features > 0], a call without continuous features fails with
    an error, and every call that succeeds was given a matrix of shape
    (batch, dnn_cont_features); when [dnn_cont_features <= 0] the argument
    is not required, the call does the same with and without it. *)
Theorem forward_requires_continuous (m : WideAndDeepModel F)
    (interactions : list (Z * Z)) (ae : gmap string (list Z)) (g : G) :
  wf_model m ->
  (0 < dnn_cont_features (hparams m) ->
     (exists e, forward interactions ae None (mkState m g) = (Raise e, mkState m g))
     /\ (forall cf out s',
           forward interactions ae cf (mkState m g) = (Ok out, s') ->
           exists c, cf = Some c
             /\ nrows c = length interactions
             /\ ncols c = Z.to_nat (dnn_cont_features (hparams m))))
  /\ (dnn_cont_features (hparams m) <= 0 ->
      forall cf, forward interactions ae cf (mkState m g)
                 = forward interactions ae None (mkState m g)).
Proof.
  intros Hwf. split.
  - intros Hpos. split.
    + apply forward_None_raises. exact Hpos.
    + intros cf out s' Hok. eapply forward_Ok_continuous; eassumption.
  - intros Hle cf. apply forward_ignores_continuous. exact Hle.
Qed.

(** C9. On a well-formed model with [dnn_cont_features = 0], a call without
    continuous features succeeds on a valid batch and returns one score per
    row, and a continuous-feature tensor supplied anyway is ignored: the
    call returns what the call without it returns. *)
Theorem forward_without_continuous (m : WideAndDeepModel F)
    (interactions : list (Z * Z)) (ae : gmap string (list Z)) (g : G) :
  wf_model m ->
  dnn_cont_features (hparams m) = 0 ->
  valid_batch m interactions ae None ->
  (exists out s',
     forward interactions ae None (mkState m g) = (Ok out, s')
     /\ has_shape out (length interactions) 1)
  /\ (forall c, forward interactions ae (Some c) (mkState m g)
                = forward interactions ae None (mkState m g)).
Proof.
  intros Hwf Hzero Hvalid. split.
  - apply forward_returns; assumption.
  - intros c. apply forward_ignores_continuous. simpl. lia.
Qed.

End Forward.

(** ** Constructed models *)

Section Constructed.

Context {F G : Type} `{Scalar F} `{Generator F G}.
Variable module_name_ok : string -> bool.

Lemma build_deep_Ok_linears (p : F) (hus : list Z) (prev : Z) (g g' : G)
    (ls : list (Layer F)) (out : Z) :
  build_deep p prev hus g = (Ok (ls, out), g') ->
  length (filter (fun l => is_linear l = true) ls) = length hus.
Proof.
  revert prev g g' ls out.
  induction hus as [|hu hus IH]; intros prev g g' ls out Hdeep.
  - injection Hdeep as <- _ _. reflexivity.
  - cbn [build_deep] in Hdeep.
    apply bind_Ok_inv in Hdeep as (lin & s1 & Hlin & Hdeep).
    apply bind_Ok_inv in Hdeep as (drop & s2 & Hdrop & Hdeep).
    apply bind_Ok_inv in Hdeep as ([layers out'] & s3 & Hrest & Hdeep).
    injection Hdeep as <- _ _.
    apply Linear_new_Ok in Hlin as (w' & b' & ->).
    apply Dropout_new_Ok in Hdrop as ->.
    rewrite filter_cons_True by reflexivity.
    rewrite filter_cons_False by (simpl; discriminate).
    rewrite filter_cons_False by (simpl; discriminate).
    simpl. f_equal. eapply IH, Hrest.
Qed.

(** What any successful run of the constructor has done. *)
Lemma init_Ok_inv (num_users num_items : Z) (hp : WideAndDeepHyperParams F)
    (g g' : G) (m : WideAndDeepModel F) :
  __init__ module_name_ok num_users num_items hp g = (Ok m, g') ->
  hparams m = hp /\ n_users m = num_users /\ n_items m = num_items
  /\ exists prev out g1 g2,
       build_deep (dnn_dropout hp) prev (dnn_hidden_units hp) g1 = (Ok (deep m, out), g2)
       /\ exists w b, head m = [Linear (crossed_feat_dim hp + out) 1 w b; Sigmoid].
Proof.
  unfold __init__. intros Hm.
  apply bind_Ok_inv in Hm as (ue & g1 & _ & Hm).
  apply bind_Ok_inv in Hm as (ie & g2 & _ & Hm).
  apply bind_Ok_inv in Hm as (embs0 & g3 & _ & Hm).
  apply bind_Ok_inv in Hm as ([embs total] & g4 & _ & Hm).
  apply bind_Ok_inv in Hm as ([layers prev_output] & g5 & Hdeep & Hm).
  apply bind_Ok_inv in Hm as (out & g6 & Hout & Hm).
  injection Hm as <- _. simpl.
  apply Linear_new_Ok in Hout as (w & b & ->).
  repeat split; eauto 10.
Qed.

Lemma init_built (num_users num_items : Z) (hp : WideAndDeepHyperParams F)
    (g g' : G) (m : WideAndDeepModel F) :
  valid_config module_name_ok num_users num_items hp = true ->
  __init__ module_name_ok num_users num_items hp g = (Ok m, g') ->
  built_from num_users num_items hp m.
Proof.
  intros Hv Hm. destruct (init_returns module_name_ok _ _ _ Hv g) as (m' & g'' & Hm' & Hb).
  rewrite Hm in Hm'. injection Hm' as -> _. exact Hb.
Qed.

Lemma build_deep_Ok_quiet (p : F) (hus : list Z) (prev : Z) (g g' : G)
    (ls : list (Layer F)) (out : Z) :
  feqb p f0 = true ->
  build_deep p prev hus g = (Ok (ls, out), g') ->
  forallb draws_nothing ls = true.
Proof.
  intros Hp. revert prev g g' ls out.
  induction hus as [|hu hus IH]; intros prev g g' ls out Hdeep.
  - injection Hdeep as <- _ _. reflexivity.
  - cbn [build_deep] in Hdeep.
    apply bind_Ok_inv in Hdeep as (lin & s1 & Hlin & Hdeep).
    apply bind_Ok_inv in Hdeep as (drop & s2 & Hdrop & Hdeep).
    apply bind_Ok_inv in Hdeep as ([layers out'] & s3 & Hrest & Hdeep).
    injection Hdeep as <- _ _.
    apply Linear_new_Ok in Hlin as (w' & b' & ->).
    apply Dropout_new_Ok in Hdrop as ->.
    simpl. rewrite Hp. simpl. eapply IH, Hrest.
Qed.

(** With a dropout probability of zero, the default, a constructed model is
    deterministic in training mode as well. *)
Lemma forward_deterministic_zero_dropout (num_users num_items : Z)
    (hp : WideAndDeepHyperParams F) (g0 g0' : G) (m : WideAndDeepModel F)
    (interactions : list (Z * Z)) (ae : gmap string (list Z)) (cf : option (Tensor F)) :
  __init__ module_name_ok num_users num_items hp g0 = (Ok m, g0') ->
  feqb (dnn_dropout hp) f0 = true ->
  exists r, forall g : G,
    forward interactions ae cf (mkState m g) = (r, mkState m g).
Proof.
  intros Hm Hp.
  apply init_Ok_inv in Hm as (_ & _ & _ & prev & out & g1 & g2 & Hdeep & w & b & Hhead).
  apply forward_eval_stateless.
  - eapply build_deep_Ok_quiet; eassumption.
  - rewrite Hhead. reflexivity.
Qed.

(** C4, as amended. In the deep stack that the constructor builds for
    [dnn_hidden_units] of length k there are exactly k linear layers, at
    positions 0, 3, ..., 3 (k - 1); the linear layer of every hidden width,
    the last one included, is directly followed by a dropout with
    probability [dnn_dropout] and then by a ReLU. The linear layer without
    a dropout is the one of the head, which is followed by the sigmoid. *)
Theorem deep_stack_layout (num_users num_items : Z) (hp : WideAndDeepHyperParams F)
    (g g' : G) (m : WideAndDeepModel F) :
  __init__ module_name_ok num_users num_items hp g = (Ok m, g') ->
  length (deep m) = (3 * length (dnn_hidden_units hp))%nat
  /\ length (filter (fun l => is_linear l = true) (deep m)) = length (dnn_hidden_units hp)
  /\ (forall i hu, dnn_hidden_units hp !! i = Some hu ->
        exists inf w b,
          deep m !! (3 * i)%nat = Some (Linear inf hu w b)
          /\ deep m !! (3 * i + 1)%nat = Some (Dropout (dnn_dropout hp) true)
          /\ deep m !! (3 * i + 2)%nat = Some ReLU)
  /\ (exists inf w b, head m = [Linear inf 1 w b; Sigmoid]).
Proof.
  intros Hm. apply init_Ok_inv in Hm as (_ & _ & _ & prev & out & g1 & g2 & Hdeep & w & b & Hhead).
  split; [exact (proj1 (build_deep_Ok _ _ _ _ _ _ _ Hdeep))|].
  split; [|split; [|eauto]].
  - exact (build_deep_Ok_linears _ _ _ _ _ _ _ Hdeep).
  - intros i hu Hi.
    destruct (proj2 (build_deep_Ok _ _ _ _ _ _ _ Hdeep) i hu Hi)
      as (inf & w' & b' & _ & H0' & H1' & H2').
    exists inf, w', b'. auto.
Qed.

(** C5. With [dnn_hidden_units] empty and otherwise valid arguments the
    constructor does not raise; the deep stack of the model is empty, so
    the deep branch returns its input, the concatenated embeddings with the
    continuous features in front when configured, unchanged; and [forward]
    runs to the end on every valid batch, in training and in evaluation
    mode, returning one score per row. *)
Theorem empty_hidden_units (num_users num_items : Z) (hp : WideAndDeepHyperParams F)
    (g : G) :
  dnn_hidden_units hp = [] ->
  valid_config module_name_ok num_users num_items hp = true ->
  exists m g',
    __init__ module_name_ok num_users num_items hp g = (Ok m, g')
    /\ deep m = []
    /\ (forall x s, sequential (deep m) x s = (Ok x, s))
    /\ forall mode interactions ae cf g0,
         valid_batch m interactions ae cf ->
         exists out s',
           forward interactions ae cf (mkState (train mode m) g0) = (Ok out, s')
           /\ has_shape out (length interactions) 1.
Proof.
  intros Hempty Hv.
  destruct (init_returns module_name_ok _ _ _ Hv g) as (m & g' & Hm & Hb).
  exists m, g'. split; [exact Hm|].
  assert (Hdeep : deep m = []).
  { apply init_Ok_inv in Hm as (_ & _ & _ & prev & out & g1 & g2 & Hd & _).
    rewrite Hempty in Hd. injection Hd as <- _ _. reflexivity. }
  split; [exact Hdeep|]. split; [rewrite Hdeep; reflexivity|].
  intros mode interactions ae cf g0 Hvalid.
  apply forward_returns; [apply wf_model_train, Hb | exact Hvalid].
Qed.

End Constructed.

(** ** More of [forward] *)

Lemma returns_Ok {S A} (c : M S A) (P : A -> Prop) (s s' : S) (a : A) :
  returns c P -> c s = (Ok a, s') -> P a.
Proof.
  intros Hc Hs. destruct (Hc s) as (a' & s1 & Hs' & Ha).
  rewrite Hs in Hs'. injection Hs' as -> _. exact Ha.
Qed.

Section Coverage.

Context {F G : Type} `{Scalar F} `{Generator F G}.

(** X1. On a well-formed model, in training or in evaluation mode, every
    valid batch is scored: [forward] returns a tensor with one row per
    example and one column, each entry being the sigmoid of some scalar. *)
Theorem forward_scores_shape (m : WideAndDeepModel F) (mode : bool)
    (interactions : list (Z * Z)) (ae : gmap string (list Z))
    (cf : option (Tensor F)) (g : G) :
  wf_model m ->
  valid_batch m interactions ae cf ->
  exists out s' y,
    forward interactions ae cf (mkState (train mode m) g) = (Ok out, s')
    /\ has_shape out (length interactions) 1
    /\ out = tmap fsigmoid y.
Proof.
  intros Hwf Hvalid.
  destruct (forward_returns (train mode m) interactions ae cf g
              (wf_model_train mode m Hwf) Hvalid) as (out & s' & Hout & Hshape).
  destruct (forward_Ok_sigmoid _ _ _ _ _ _ _ (wf_model_train mode m Hwf) Hout) as [y Hy].
  exists out, s', y. auto.
Qed.

(** *** Success characterises the valid batches *)

Lemma embedding_row_Ok_inv (w : Tensor F) (i : Z) (r : list F) :
  embedding_row w i = Ok r -> 0 <= i < Z.of_nat (nrows w).
Proof.
  unfold embedding_row.
  destruct (Z.leb_spec 0 i); simpl; [|discriminate].
  destruct (Z.ltb_spec i (Z.of_nat (nrows w))); [|discriminate]. lia.
Qed.

Lemma embedding_Ok_indices (e : Embedding F) (idx : list Z) (t : Tensor F) :
  embedding e idx = Ok t -> indices_ok e idx.
Proof.
  unfold embedding. intros Ht. apply rbind_Ok in Ht as (rs & Hrs & _).
  apply traverse_Ok_Forall2 in Hrs. unfold indices_ok.
  induction Hrs as [|i r idx rs Hi _ IH]; constructor; [|exact IH].
  eapply embedding_row_Ok_inv, Hi.
Qed.

Lemma cat_Ok_nrows {A} (t0 : Tensor A) (ts : list (Tensor A)) (t : Tensor A) :
  cat (t0 :: ts) = Ok t -> Forall (fun t' => nrows t' = nrows t0) ts.
Proof.
  revert t0 t. induction ts as [|t1 ts IH]; intros t0 t Ht; [constructor|].
  change (cat (t0 :: t1 :: ts)) with (rbind (cat (t1 :: ts)) (fun r => cat2 t0 r)) in Ht.
  apply rbind_Ok in Ht as (r & Hr & Ht).
  apply cat2_Ok_shape in Ht as [Hrows _].
  destruct (cat_Ok_shape _ _ _ Hr) as [Hr1 _].
  constructor; [congruence|].
  eapply Forall_impl; [exact (IH _ _ Hr)|]. simpl. intros t' Ht'. congruence.
Qed.

Lemma forward_Ok_valid_batch (m : WideAndDeepModel F) (interactions : list (Z * Z))
    (ae : gmap string (list Z)) (cf : option (Tensor F)) (g : G)
    (out : Tensor F) (s' : ModuleState F G) :
  wf_model m ->
  (forall c, cf = Some c -> wf_tensor c) ->
  forward interactions ae cf (mkState m g) = (Ok out, s') ->
  valid_batch m interactions ae cf.
Proof.
  intros Hwf Hcf Hok.
  assert (Hcont : 0 < dnn_cont_features (hparams m) ->
                  exists c, cf = Some c
                    /\ has_shape c (length interactions)
                         (Z.to_nat (dnn_cont_features (hparams m)))).
  { intros Hpos.
    destruct (forward_Ok_continuous _ _ _ _ _ _ _ Hwf Hpos Hok) as (c & -> & Hr & Hc).
    exists c. split; [reflexivity|]. split; [apply Hcf; reflexivity | auto]. }
  unfold forward in Hok. rewrite bind_gets in Hok. cbn [self] in Hok.
  apply bind_lift_Ok_inv in Hok as (u & Hu & Hok).
  apply bind_lift_Ok_inv in Hok as (i & Hi & Hok).
  apply bind_lift_Ok_inv in Hok as (extra & Hextra & Hok).
  apply bind_lift_Ok_inv in Hok as (all_embed & Hall & _).
  split; [exact (embedding_Ok_indices _ _ _ Hu)|].
  split; [exact (embedding_Ok_indices _ _ _ Hi)|].
  split; [|exact Hcont].
  apply cat_Ok_nrows in Hall. apply Forall_cons in Hall as [_ Hrows].
  apply embedding_Ok_shape in Hu as [Hur _]. rewrite length_map in Hur.
  apply traverse_Ok_Forall2 in Hextra.
  clear -Hextra Hrows Hur.
  induction Hextra as [|[k e] t embs extra Ht _ IH]; constructor.
  - apply Forall_cons in Hrows as [Hrow _].
    apply rbind_Ok in Ht as (idx & Hidx & Ht). unfold lookup_key in Hidx.
    simpl. destruct (ae !! k) as [idx'|]; [|discriminate]. injection Hidx as ->.
    exists idx. split; [reflexivity|].
    split; [|exact (embedding_Ok_indices _ _ _ Ht)].
    apply embedding_Ok_shape in Ht as [Htr _]. congruence.
  - apply IH. apply Forall_cons in Hrows as [_ Hrows]. exact Hrows.
Qed.

(** X2. On a well-formed model [forward] returns a result exactly on the
    valid batches: indices inside their tables, one index tensor of the
    batch length for every declared additional feature and, when the model
    has continuous features, a matrix of shape (batch, dnn_cont_features).
    Any other call raises. *)
Theorem forward_succeeds_iff_valid (m : WideAndDeepModel F)
    (interactions : list (Z * Z)) (ae : gmap string (list Z))
    (cf : option (Tensor F)) (g : G) :
  wf_model m ->
  (forall c, cf = Some c -> wf_tensor c) ->
  (exists out s', forward interactions ae cf (mkState m g) = (Ok out, s'))
  <-> valid_batch m interactions ae cf.
Proof.
  intros Hwf Hcf. split.
  - intros (out & s' & Hok). eapply forward_Ok_valid_batch; eassumption.
  - intros Hvalid.
    destruct (forward_returns m interactions ae cf g Hwf Hvalid) as (out & s' & Hok & _).
    eauto.
Qed.


(** *** Index errors *)

Lemma traverse_Ok_or {A B} (f : A -> result B) (e : error) (l : list A) :
  Forall (fun a => (exists b, f a = Ok b) \/ f a = Raise e) l ->
  (exists bs, traverse f l = Ok bs) \/ traverse f l = Raise e.
Proof.
  induction 1 as [|a l [[b Hb]|Ha] _ [[bs Hbs]|Hl]]; simpl.
  - left. eauto.
  - left. rewrite Hb; simpl. rewrite Hbs; simpl. eauto.
  - right. rewrite Hb; simpl. rewrite Hl. reflexivity.
  - right. rewrite Ha. reflexivity.
  - right. rewrite Ha. reflexivity.
Qed.

Lemma embedding_Ok_or_IndexError (e : Embedding F) (idx : list Z) :
  (exists t, embedding e idx = Ok t) \/ embedding e idx = Raise IndexError.
Proof.
  unfold embedding.
  destruct (traverse_Ok_or (embedding_row (weight e)) IndexError idx) as [[rs Hrs]|Hr].
  - apply Forall_forall. intros i _. unfold embedding_row.
    destruct ((0 <=? i) && (i <? Z.of_nat (nrows (weight e)))); [|right; reflexivity].
    destruct (rows (weight e) !! Z.to_nat i); [left; eauto | right; reflexivity].
  - left. rewrite Hrs. simpl. eauto.
  - right. rewrite Hr. reflexivity.
Qed.

(** X3. When every declared additional feature is supplied and some user,
    item or additional-feature index lies outside its embedding table,
    [forward] raises the index error of the lookup and leaves the module
    state as it was. *)
Theorem forward_index_error (m : WideAndDeepModel F) (interactions : list (Z * Z))
    (ae : gmap string (list Z)) (cf : option (Tensor F)) (g : G) :
  Forall (fun ke => is_Some (ae !! ke.1)) (additional_embs m) ->
  ~ (indices_ok (users_emb m) (map fst interactions)
     /\ indices_ok (items_emb m) (map snd interactions)
     /\ Forall (fun ke => forall t, ae !! ke.1 = Some t -> indices_ok ke.2 t)
          (additional_embs m)) ->
  forward interactions ae cf (mkState m g) = (Raise IndexError, mkState m g).
Proof.
  intros Hkeys Hbad. unfold forward. rewrite bind_gets. cbn [self].
  destruct (embedding_Ok_or_IndexError (users_emb m) (map fst interactions))
    as [[u Hu]|Hu]; [|exact (bind_lift_Raise _ _ _ _ Hu)].
  rewrite (bind_lift_Ok _ _ _ _ Hu).
  destruct (embedding_Ok_or_IndexError (items_emb m) (map snd interactions))
    as [[i Hi]|Hi]; [|exact (bind_lift_Raise _ _ _ _ Hi)].
  rewrite (bind_lift_Ok _ _ _ _ Hi).
  destruct (traverse_Ok_or
              (fun '(k, emb) => let? t := lookup_key ae k in embedding emb t)
              IndexError (additional_embs m)) as [[extra Hextra]|Hextra].
  - eapply Forall_impl; [exact Hkeys|]. intros [k e] [t Ht]. simpl in Ht.
    unfold lookup_key. rewrite Ht. simpl. apply embedding_Ok_or_IndexError.
  - exfalso. apply Hbad.
    split; [exact (embedding_Ok_indices _ _ _ Hu)|].
    split; [exact (embedding_Ok_indices _ _ _ Hi)|].
    apply traverse_Ok_Forall2 in Hextra. clear -Hextra.
    induction Hextra as [|[k e] t embs extra Ht _ IH]; constructor; [|exact IH].
    simpl. intros idx Hidx. unfold lookup_key in Ht. rewrite Hidx in Ht. simpl in Ht.
    exact (embedding_Ok_indices _ _ _ Ht).
  - exact (bind_lift_Raise _ _ _ _ Hextra).
Qed.

(** *** Only the declared features are read *)

Lemma traverse_ext_in {A B} (f f' : A -> result B) (l : list A) :
  Forall (fun a => f a = f' a) l -> traverse f l = traverse f' l.
Proof.
  induction 1 as [|a l Ha _ IH]; simpl; [reflexivity|]. rewrite Ha, IH. reflexivity.
Qed.

(** X4. [forward] reads [additional_embeddings] at the declared feature
    names only: two mappings that agree on the names declared at
    construction give the same result and the same final state, whatever
    other keys they hold. *)
Theorem forward_reads_declared_keys (interactions : list (Z * Z))
    (ae ae' : gmap string (list Z)) (cf : option (Tensor F)) (s : ModuleState F G) :
  (forall k, k ∈ map fst (additional_embs (self s)) -> ae !! k = ae' !! k) ->
  forward interactions ae cf s = forward interactions ae' cf s.
Proof.
  intros Hagree. unfold forward. rewrite !bind_gets.
  assert (Hext : traverse (fun '(k, emb) => let? t := lookup_key ae k in embedding emb t)
                   (additional_embs (self s))
                 = traverse (fun '(k, emb) => let? t := lookup_key ae' k in embedding emb t)
                     (additional_embs (self s))).
  { apply traverse_ext_in, Forall_forall. intros [k e] Hin.
    unfold lookup_key. rewrite (Hagree k); [reflexivity|].
    apply list_elem_of_fmap. exists (k, e). auto. }
  rewrite Hext. reflexivity.
Qed.

(** *** A zero bucket count *)

Lemma cat_Ok_of_nrows {A} (t0 : Tensor A) (ts : list (Tensor A)) :
  Forall (fun t => nrows t = nrows t0) ts ->
  exists t, cat (t0 :: ts) = Ok t /\ nrows t = nrows t0.
Proof.
  revert t0. induction ts as [|t1 ts IH]; intros t0 Hts.
  - exists t0. auto.
  - apply Forall_cons in Hts as [H1 Hts].
    destruct (IH t1) as (r & Hr & Hrn).
    { eapply Forall_impl; [exact Hts|]. simpl. intros; congruence. }
    change (cat (t0 :: t1 :: ts)) with (rbind (cat (t1 :: ts)) (fun r => cat2 t0 r)).
    rewrite Hr. simpl. unfold cat2.
    replace (nrows t0 =? nrows r)%nat with true by (symmetry; apply Nat.eqb_eq; congruence).
    eexists. split; [reflexivity|]. unfold nrows; simpl.
    rewrite length_zip_with. unfold nrows in *. lia.
Qed.

Lemma lookups_Ok (m : WideAndDeepModel F) (interactions : list (Z * Z))
    (ae : gmap string (list Z)) (cf : option (Tensor F)) :
  valid_batch m interactions ae cf ->
  exists u i extra all_embed,
    embedding (users_emb m) (map fst interactions) = Ok u
    /\ embedding (items_emb m) (map snd interactions) = Ok i
    /\ traverse (fun '(k, emb) => let? t := lookup_key ae k in embedding emb t)
         (additional_embs m) = Ok extra
    /\ cat (u :: i :: extra) = Ok all_embed.
Proof.
  intros (Hu & Hi & Hextra & _).
  destruct (embedding_total _ _ Hu) as [u Hue].
  destruct (embedding_total _ _ Hi) as [i Hie].
  destruct (traverse_Forall2
              (fun '(k, emb) => let? t := lookup_key ae k in embedding emb t)
              (fun _ t => nrows t = length interactions) (additional_embs m))
    as (extra & Hex & Hrows).
  { eapply Forall_impl; [exact Hextra|]. intros [k e] (t & Ht & Hlen & Hidx).
    simpl in Ht, Hidx. destruct (embedding_total _ _ Hidx) as [r Hr].
    exists r. unfold lookup_key. rewrite Ht. simpl. split; [exact Hr|].
    apply embedding_Ok_shape in Hr as [-> _]. exact Hlen. }
  pose proof (embedding_Ok_shape _ _ _ Hue) as [Hur _].
  pose proof (embedding_Ok_shape _ _ _ Hie) as [Hir _].
  rewrite length_map in Hur, Hir.
  destruct (cat_Ok_of_nrows u (i :: extra)) as (all_embed & Hall & _).
  { constructor; [congruence|]. clear -Hrows Hur.
    induction Hrows; constructor; [congruence | assumption]. }
  exists u, i, extra, all_embed. auto.
Qed.

(** X5. The constructor does not validate [crossed_feat_dim]: on a model
    whose bucket count is zero, every call on a non-empty batch that passes
    the embedding lookups fails at the remainder of line 81 with a
    division by zero, and the module state is untouched. *)
Theorem forward_zero_buckets (m : WideAndDeepModel F) (interactions : list (Z * Z))
    (ae : gmap string (list Z)) (cf : option (Tensor F)) (g : G) :
  crossed_feat_dim (hparams m) = 0 ->
  in_int64 (n_items m) = true ->
  interactions <> [] ->
  valid_batch m interactions ae cf ->
  forward interactions ae cf (mkState m g) = (Raise ZeroDivisionError, mkState m g).
Proof.
  intros Hzero Hn Hne Hvalid.
  destruct (lookups_Ok _ _ _ _ Hvalid) as (u & i & extra & all_embed & Hu & Hi & Hex & Hall).
  unfold forward. rewrite bind_gets. cbn [self].
  rewrite (bind_lift_Ok _ _ _ _ Hu), (bind_lift_Ok _ _ _ _ Hi),
    (bind_lift_Ok _ _ _ _ Hex), (bind_lift_Ok _ _ _ _ Hall).
  apply bind_lift_Raise. rewrite Hzero.
  unfold cross_product_idx, mul_scalar, add_tensor, remainder, to_int64.
  rewrite Hn. simpl. rewrite !length_map, Nat.eqb_refl. simpl.
  destruct interactions as [|[a b] l]; [congruence|]. reflexivity.
Qed.

End Coverage.

(** *** Collisions of the cross feature *)

(** X6. When [crossed_feat_dim] is at least [num_users * num_items], two
    valid interactions fall into the same bucket only if they are the same
    (user, item) pair: the wide feature then identifies the pair. *)
Theorem cross_index_injective (num_users n_items dim : Z) (u i u' i' a b : Z) :
  0 <= u < num_users -> 0 <= i < n_items ->
  0 <= u' < num_users -> 0 <= i' < n_items ->
  num_users * n_items <= dim <= int64_max ->
  cross_product_idx n_items dim [u; u'] [i; i'] = Ok [a; b] ->
  a = b -> u = u' /\ i = i'.
Proof.
  intros Hu Hi Hu' Hi' Hdim Hidx Hab.
  assert (Hfit : forall x y, 0 <= x < num_users -> 0 <= y < n_items ->
                   0 <= x * n_items + y < dim) by (intros; nia).
  assert (Hmax : int64_max = 2 ^ 63 - 1) by reflexivity.
  assert (Hin : forall z, 0 <= z < dim -> in_int64 z = true).
  { intros z Hz. unfold in_int64, int64_min. apply andb_true_intro.
    split; apply Z.leb_le; lia. }
  pose proof (cross_product_idx_eq n_items dim [(u, i); (u', i')]) as Heq.
  simpl in Heq. rewrite Heq in Hidx.
  - injection Hidx as <- <-.
    rewrite !bucket_exact in Hab by (simpl; apply Hin, Hfit; assumption).
    simpl in Hab. rewrite !Z.mod_small in Hab by (apply Hfit; assumption).
    assert (Huu : u = u').
    { destruct (Z.lt_trichotomy u u') as [Hlt|[Heq'|Hgt]]; [|assumption|]; exfalso; nia. }
    subst u'. split; [reflexivity | lia].
  - assert (n_items <= num_users * n_items) by nia.
    unfold in_int64, int64_min. apply andb_true_intro. split; apply Z.leb_le; lia.
  - assert (0 < num_users * n_items) by nia.
    unfold in_int64, int64_min. apply andb_true_intro. split; apply Z.leb_le; lia.
  - assert (0 < num_users * n_items) by nia. lia.
Qed.

Section ConstructorCoverage.

Context {F G : Type} `{Scalar F} `{Generator F G}.
Variable module_name_ok : string -> bool.


Lemma bind_Raise_inv {S A B} (c : M S A) (k : A -> M S B) (s s' : S) (e : error) :
  bind c k s = (Raise e, s') ->
  c s = (Raise e, s') \/ exists a s1, c s = (Ok a, s1) /\ k a s1 = (Raise e, s').
Proof.
  unfold bind. destruct (c s) as [[a|e'] s1]; [eauto|].
  intros [= <- <-]. auto.
Qed.

Lemma Embedding_new_Ok (num dim : Z) (g g' : G) (e : Embedding F) :
  Embedding_new num dim g = (Ok e, g') ->
  size_ok num = true /\ size_ok dim = true
  /\ wf_embedding e /\ num_embeddings e = num /\ embedding_dim e = dim.
Proof.
  intros He. pose proof He as He'. unfold Embedding_new in He'.
  apply bind_Ok_inv in He' as (u1 & g1 & Hnum & He').
  apply bind_Ok_inv in He' as (u2 & g2 & Hdim & _).
  apply check_size_Ok in Hnum as [Hnum _]. apply check_size_Ok in Hdim as [Hdim _].
  split; [exact Hnum|]. split; [exact Hdim|].
  exact (returns_Ok _ _ _ _ _ (Embedding_new_returns num dim Hnum Hdim) He).
Qed.

Lemma Linear_new_Ok_shape (inf outf : Z) (g g' : G) (l : Layer F) :
  Linear_new inf outf g = (Ok l, g') ->
  size_ok inf = true /\ size_ok outf = true
  /\ exists w b, l = Linear inf outf w b
       /\ has_shape w (Z.to_nat outf) (Z.to_nat inf)
       /\ length b = Z.to_nat outf.
Proof.
  intros Hl. pose proof Hl as Hl'. unfold Linear_new in Hl'.
  apply bind_Ok_inv in Hl' as (u1 & g1 & Hout & Hl').
  apply bind_Ok_inv in Hl' as (u2 & g2 & Hin & _).
  apply check_size_Ok in Hout as [Hout _]. apply check_size_Ok in Hin as [Hin _].
  split; [exact Hin|]. split; [exact Hout|].
  exact (returns_Ok _ _ _ _ _ (Linear_new_returns inf outf Hin Hout) Hl).
Qed.

Lemma Dropout_new_Ok_valid (p : F) (g g' : G) (l : Layer F) :
  Dropout_new p g = (Ok l, g') -> dropout_ok p = true.
Proof.
  unfold Dropout_new, dropout_ok.
  destruct (fltb p f0 || fltb f1 p); [discriminate | reflexivity].
Qed.

Lemma traverseM_Ok_Forall2 {S A B} (f : A -> M S B) (l : list A) (bs : list B) (s s' : S) :
  traverseM f l s = (Ok bs, s') ->
  Forall2 (fun a b => exists s1 s2, f a s1 = (Ok b, s2)) l bs.
Proof.
  revert bs s s'. induction l as [|a l IH]; intros bs s s' Hbs.
  - injection Hbs as <- _. constructor.
  - cbn [traverseM] in Hbs.
    apply bind_Ok_inv in Hbs as (b & s1 & Hb & Hbs).
    apply bind_Ok_inv in Hbs as (bs' & s2 & Hbs' & Hbs).
    injection Hbs as <- _.
    constructor; [exists s, s1; exact Hb | exact (IH _ _ _ Hbs')].
Qed.

Lemma new_additional_embs_Ok (sizes : list (string * (Z * Z))) (g g' : G)
    (embs : list (string * Embedding F)) :
  new_additional_embs module_name_ok sizes g = (Ok embs, g') ->
  forallb (fun kv => size_ok kv.2.1 && size_ok kv.2.2) sizes = true
  /\ forallb (fun kv => module_name_ok kv.1) sizes = true
  /\ Forall2 emb_matches sizes embs.
Proof.
  intros Hembs. unfold new_additional_embs in Hembs.
  apply bind_Ok_inv in Hembs as (embs0 & g1 & Hnew & Hembs).
  apply bind_Ok_inv in Hembs as (us & g2 & Hnames & Hembs).
  injection Hembs as <- _.
  apply traverseM_Ok_Forall2 in Hnew, Hnames.
  assert (Hm : Forall2 emb_matches sizes embs0).
  { clear -Hnew. induction Hnew as [|[k [num dim]] ke sizes embs (s1 & s2 & Hke) _ IH];
      constructor; [|exact IH].
    apply bind_Ok_inv in Hke as (e & s3 & He & Hke). injection Hke as <- _.
    apply Embedding_new_Ok in He as (_ & _ & Hwf & Hn & Hd).
    unfold emb_matches. simpl. auto. }
  split; [|split; [|exact Hm]].
  - clear -Hnew. induction Hnew as [|[k [num dim]] ke sizes embs (s1 & s2 & Hke) _ IH];
      [reflexivity|].
    apply bind_Ok_inv in Hke as (e & s3 & He & _).
    apply Embedding_new_Ok in He as (Hn & Hd & _).
    simpl. rewrite Hn, Hd, IH. reflexivity.
  - clear Hnew. revert us Hnames. induction Hm as [|kv [k e] sizes embs (Hk & _) _ IH];
      intros us Hnames; [reflexivity|].
    inversion Hnames as [|? u ? us' (s1 & s2 & Hu) Hrest]; subst.
    simpl in Hk. simpl. rewrite <- Hk.
    destruct (module_name_ok k); [|discriminate]. simpl. eapply IH, Hrest.
Qed.

Lemma init_additional_embs_Ok (embs : list (string * Embedding F)) (total : Z)
    (g g' : G) (embs' : list (string * Embedding F)) (total' : Z) :
  Forall (fun ke => wf_embedding ke.2) embs ->
  init_additional_embs embs total g = (Ok (embs', total'), g') ->
  Forall2 emb_kept embs embs' /\ total' = total + sum_dims embs.
Proof.
  intros Hwf Hok.
  exact (returns_Ok _ _ _ _ _ (init_additional_embs_returns embs total Hwf) Hok).
Qed.

Lemma build_deep_Ok_shapes (p : F) (hus : list Z) (prev : Z) (g g' : G)
    (ls : list (Layer F)) (out : Z) :
  build_deep p prev hus g = (Ok (ls, out), g') ->
  out = List.last hus prev
  /\ forallb size_ok hus = true
  /\ (hus <> [] -> size_ok prev = true /\ dropout_ok p = true)
  /\ forall i hu, hus !! i = Some hu ->
       exists inf w b,
         (prev :: hus) !! i = Some inf
         /\ ls !! (3 * i)%nat = Some (Linear inf hu w b)
         /\ has_shape w (Z.to_nat hu) (Z.to_nat inf)
         /\ length b = Z.to_nat hu.
Proof.
  revert prev g g' ls out.
  induction hus as [|hu0 hus IH]; intros prev g g' ls out Hb.
  - injection Hb as <- <- _. repeat split; [congruence..|].
    intros i hu Hi. rewrite lookup_nil in Hi. discriminate.
  - cbn [build_deep] in Hb.
    apply bind_Ok_inv in Hb as (lin & g1 & Hlin & Hb).
    apply bind_Ok_inv in Hb as (drop & g2 & Hdrop & Hb).
    apply bind_Ok_inv in Hb as ([layers out'] & g3 & Hrest & Hb).
    injection Hb as <- <- _.
    apply Linear_new_Ok_shape in Hlin as (Hprev & Hhu & w & b & -> & Hw & Hbl).
    apply Dropout_new_Ok_valid in Hdrop.
    destruct (IH _ _ _ _ _ Hrest) as (Hout & Hsizes & _ & Hpos).
    split; [rewrite last_cons_default; exact Hout|].
    split; [simpl; rewrite Hhu, Hsizes; reflexivity|].
    split; [auto|].
    intros [|i] hu Hi.
    + injection Hi as ->. exists prev, w, b. simpl. auto.
    + simpl in Hi. destruct (Hpos i hu Hi) as (inf & w' & b' & Hinf & Hl & Hshape).
      exists inf, w', b'.
      replace (3 * S i)%nat with (S (S (S (3 * i)))) by lia.
      simpl. auto.
Qed.

(** Every successful run of the constructor, step by step. *)
Lemma init_Ok_full (num_users num_items : Z) (hp : WideAndDeepHyperParams F)
    (g g' : G) (m : WideAndDeepModel F) :
  __init__ module_name_ok num_users num_items hp g = (Ok m, g') ->
  accepted_config module_name_ok num_users num_items hp = true
  /\ hparams m = hp /\ n_users m = num_users /\ n_items m = num_items
  /\ wf_embedding (users_emb m)
  /\ num_embeddings (users_emb m) = num_users /\ embedding_dim (users_emb m) = user_dim hp
  /\ wf_embedding (items_emb m)
  /\ num_embeddings (items_emb m) = num_items /\ embedding_dim (items_emb m) = item_dim hp
  /\ Forall2 emb_matches (dnn_additional_embeddings_sizes hp) (additional_embs m)
  /\ (exists g1 g2,
        build_deep (dnn_dropout hp) (deep_input_width hp) (dnn_hidden_units hp) g1
        = (Ok (deep m, deep_output_width hp), g2))
  /\ exists w b,
       head m = [Linear (crossed_feat_dim hp + deep_output_width hp) 1 w b; Sigmoid]
       /\ has_shape w 1 (Z.to_nat (crossed_feat_dim hp + deep_output_width hp))
       /\ length b = 1%nat.
Proof.
  unfold __init__. intros Hm.
  apply bind_Ok_inv in Hm as (ue & g1 & Hue & Hm).
  apply bind_Ok_inv in Hm as (ie & g2 & Hie & Hm).
  apply bind_Ok_inv in Hm as (embs0 & g3 & Hembs0 & Hm).
  apply bind_Ok_inv in Hm as ([embs total] & g4 & Hembs & Hm).
  apply bind_Ok_inv in Hm as ([layers prev_output] & g5 & Hdeep & Hm).
  apply bind_Ok_inv in Hm as (out & g6 & Hout & Hm).
  injection Hm as <- _. cbn [hparams n_users n_items users_emb items_emb additional_embs
                              deep head].
  apply Embedding_new_Ok in Hue as (Hnu & Hud & Hue & Hue_n & Hue_d).
  apply Embedding_new_Ok in Hie as (Hni & Hid & Hie & Hie_n & Hie_d).
  apply new_additional_embs_Ok in Hembs0 as (Hsizes & Hnames & Hmatch0).
  assert (Hwf0 : Forall (fun ke => wf_embedding ke.2) embs0).
  { clear -Hmatch0. induction Hmatch0 as [|? ? ? ? (_ & Hwf & _) _ IH]; constructor; auto. }
  apply (init_additional_embs_Ok _ _ _ _ _ _ Hwf0) in Hembs as [Hkept Htotal].
  assert (Hprev : dnn_cont_features hp + total = deep_input_width hp).
  { unfold deep_input_width. rewrite Htotal, (sum_dims_matches _ _ Hmatch0). lia. }
  rewrite Hprev in Hdeep.
  pose proof (build_deep_Ok_shapes _ _ _ _ _ _ _ Hdeep) as (Hlast & Hhus & Hne & _).
  change (prev_output = deep_output_width hp) in Hlast. subst prev_output.
  apply Linear_new_Ok_shape in Hout as (Hin & _ & w & b & -> & Hw & Hb).
  split.
  { unfold accepted_config. rewrite Hnu, Hni, Hud, Hid, Hsizes, Hnames, Hhus, Hin. simpl.
    destruct (dnn_hidden_units hp) as [|hu hus]; [reflexivity|].
    destruct Hne as [-> ->]; [discriminate | reflexivity]. }
  repeat (split; [first [reflexivity | assumption
                        | eapply emb_matches_kept; eassumption | eauto]|]).
  exists w, b. auto.
Qed.


Lemma forallb_names_sizes (sizes : list (string * (Z * Z))) :
  forallb (fun kv => size_ok kv.2.1 && size_ok kv.2.2) sizes = true ->
  forallb (fun kv => module_name_ok kv.1) sizes = true ->
  forallb (fun kv => module_name_ok kv.1 && size_ok kv.2.1 && size_ok kv.2.2) sizes = true.
Proof.
  induction sizes as [|kv l IH]; [reflexivity|]. simpl. intros Hs Hn.
  apply andb_prop in Hs as [Hs1 Hs], Hn as [Hn1 Hn].
  apply andb_prop in Hs1 as [-> ->]. rewrite Hn1, (IH Hs Hn). reflexivity.
Qed.

Lemma init_accepts (num_users num_items : Z) (hp : WideAndDeepHyperParams F) :
  accepted_config module_name_ok num_users num_items hp = true ->
  returns (__init__ (G:=G) module_name_ok num_users num_items hp) (fun _ => True).
Proof.
  unfold accepted_config. intros Hv.
  do 8 (apply andb_prop in Hv as [Hv ?]). rename Hv into Hnu.
  unfold __init__.
  eapply returns_bind; [apply Embedding_new_returns; eassumption|].
  intros ue _.
  eapply returns_bind; [apply Embedding_new_returns; eassumption|].
  intros ie _.
  eapply returns_bind.
  { apply new_additional_embs_returns. apply forallb_names_sizes; assumption. }
  intros embs0 Hembs0.
  eapply returns_bind.
  { apply init_additional_embs_returns.
    clear -Hembs0. induction Hembs0 as [|? ? ? ? (_ & Hwf & _) _ IH]; constructor; auto. }
  intros [embs total] [Hembs Htotal]. cbn [fst snd] in Hembs, Htotal.
  assert (Hprev : dnn_cont_features hp + total = deep_input_width hp).
  { unfold deep_input_width. rewrite Htotal, (sum_dims_matches _ _ Hembs0). lia. }
  rewrite Hprev.
  apply (returns_bind _ _ (fun r => r.2 = deep_output_width hp)).
  { unfold deep_output_width. destruct (dnn_hidden_units hp) as [|hu hus] eqn:Hhus.
    - apply returns_ret. reflexivity.
    - match goal with Hd : _ && dropout_ok _ = true |- _ =>
        apply andb_prop in Hd as [Hin Hd] end.
      eapply returns_weaken; [apply build_deep_returns; [exact Hin|assumption|auto]|].
      simpl. intros r [Hr _]. exact Hr. }
  intros [layers prev_output] Hout. cbn [snd] in Hout. subst prev_output.
  eapply returns_bind; [apply Linear_new_returns; [eassumption | reflexivity]|].
  intros out _. apply returns_ret, I.
Qed.

(** X7. The constructor returns a model exactly when the sizes it allocates
    are non-negative int64 values, the feature names are accepted by the
    module dictionary and, if there is a hidden layer, the dropout
    probability lies in [0, 1]; otherwise it raises. It checks neither that
    [crossed_feat_dim] is positive nor that [dnn_cont_features] is
    non-negative, and with no hidden layer it does not look at
    [dnn_dropout]. *)
Theorem constructor_accepts_iff (num_users num_items : Z)
    (hp : WideAndDeepHyperParams F) (g : G) :
  (exists m g', __init__ module_name_ok num_users num_items hp g = (Ok m, g'))
  <-> accepted_config module_name_ok num_users num_items hp = true.
Proof.
  split.
  - intros (m & g' & Hm). exact (proj1 (init_Ok_full _ _ _ _ _ _ Hm)).
  - intros Hacc. destruct (init_accepts _ _ _ Hacc g) as (m & g' & Hm & _). eauto.
Qed.

(** X8. Whenever the constructor returns, the model holds one embedding
    table per vocabulary: the user table has [num_users] rows of width
    [user_dim], the item table [num_items] rows of width [item_dim], and
    the additional tables follow [dnn_additional_embeddings_sizes] entry by
    entry, in its order, with the declared name, row count and width. *)
Theorem constructor_tables (num_users num_items : Z)
    (hp : WideAndDeepHyperParams F) (g g' : G) (m : WideAndDeepModel F) :
  __init__ module_name_ok num_users num_items hp g = (Ok m, g') ->
  hparams m = hp /\ n_users m = num_users /\ n_items m = num_items
  /\ has_shape (weight (users_emb m)) (Z.to_nat num_users) (Z.to_nat (user_dim hp))
  /\ has_shape (weight (items_emb m)) (Z.to_nat num_items) (Z.to_nat (item_dim hp))
  /\ Forall2 (fun kv ke =>
                ke.1 = kv.1
                /\ has_shape (weight ke.2) (Z.to_nat kv.2.1) (Z.to_nat kv.2.2))
       (dnn_additional_embeddings_sizes hp) (additional_embs m).
Proof.
  intros Hm.
  destruct (init_Ok_full _ _ _ _ _ _ Hm)
    as (_ & Hhp & Hnu & Hni & (_ & _ & Hue) & Hue_n & Hue_d
        & (_ & _ & Hie) & Hie_n & Hie_d & Hmatch & _).
  rewrite Hue_n, Hue_d in Hue. rewrite Hie_n, Hie_d in Hie.
  repeat (split; [assumption|]).
  eapply Forall2_impl; [exact Hmatch|].
  intros kv ke (Hk & (_ & _ & Hw) & Hn & Hd). rewrite Hn, Hd in Hw. auto.
Qed.

(** X9. Whenever the constructor returns, the linear layers of the model
    are sized as a chain: the layer of the hidden width at position [i]
    has weight shape (hidden[i], hidden[i-1]), the first one taking
    [dnn_cont_features + user_dim + item_dim + the additional widths]
    inputs, and the head maps [crossed_feat_dim + the last hidden width]
    (the deep input width when there is no hidden layer) to one output. *)
Theorem constructor_layer_shapes (num_users num_items : Z)
    (hp : WideAndDeepHyperParams F) (g g' : G) (m : WideAndDeepModel F) :
  __init__ module_name_ok num_users num_items hp g = (Ok m, g') ->
  (forall i hu, dnn_hidden_units hp !! i = Some hu ->
     exists inf w b,
       (deep_input_width hp :: dnn_hidden_units hp) !! i = Some inf
       /\ deep m !! (3 * i)%nat = Some (Linear inf hu w b)
       /\ has_shape w (Z.to_nat hu) (Z.to_nat inf)
       /\ length b = Z.to_nat hu)
  /\ exists w b,
       head m = [Linear (crossed_feat_dim hp + deep_output_width hp) 1 w b; Sigmoid]
       /\ has_shape w 1 (Z.to_nat (crossed_feat_dim hp + deep_output_width hp))
       /\ length b = 1%nat.
Proof.
  intros Hm.
  destruct (init_Ok_full _ _ _ _ _ _ Hm)
    as (_ & _ & _ & _ & _ & _ & _ & _ & _ & _ & _ & (g1 & g2 & Hdeep) & Hhead).
  split; [|exact Hhead].
  exact (proj2 (proj2 (proj2 (build_deep_Ok_shapes _ _ _ _ _ _ _ Hdeep)))).
Qed.

Lemma returns_bind_Raise {S A B} (c : M S A) (k : A -> M S B) (P : A -> Prop) (e : error) :
  returns c P -> (forall a s, P a -> exists s', k a s = (Raise e, s')) ->
  forall s, exists s', bind c k s = (Raise e, s').
Proof.
  intros Hc Hk s. destruct (Hc s) as (a & s1 & Hcs & Ha).
  destruct (Hk a s1 Ha) as (s' & Hks). exists s'. unfold bind. rewrite Hcs. exact Hks.
Qed.

(** X10. With at least one hidden layer and sizes the constructor accepts,
    a dropout probability outside [0, 1] makes the constructor raise a
    value error, after the first linear layer has been allocated. *)
Theorem constructor_rejects_dropout (num_users num_items : Z)
    (hp : WideAndDeepHyperParams F) (hu : Z) (hus : list Z) (g : G) :
  dnn_hidden_units hp = hu :: hus ->
  size_ok num_users = true -> size_ok num_items = true ->
  size_ok (user_dim hp) = true -> size_ok (item_dim hp) = true ->
  forallb (fun kv => module_name_ok kv.1 && size_ok kv.2.1 && size_ok kv.2.2)
    (dnn_additional_embeddings_sizes hp) = true ->
  size_ok (deep_input_width hp) = true -> size_ok hu = true ->
  dropout_ok (dnn_dropout hp) = false ->
  exists g', __init__ module_name_ok num_users num_items hp g = (Raise ValueError, g').
Proof.
  intros Hhus Hnu Hni Hud Hid Hsizes Hin Hhu Hp. unfold __init__.
  eapply returns_bind_Raise; [apply Embedding_new_returns; eassumption|].
  intros ue s1 _.
  eapply returns_bind_Raise; [apply Embedding_new_returns; eassumption|].
  intros ie s2 _.
  eapply returns_bind_Raise; [apply new_additional_embs_returns; eassumption|].
  intros embs0 s3 Hembs0.
  eapply returns_bind_Raise.
  { apply init_additional_embs_returns.
    clear -Hembs0. induction Hembs0 as [|? ? ? ? (_ & Hwf & _) _ IH]; constructor; auto. }
  intros [embs total] s4 [Hembs Htotal]. cbn [fst snd] in Hembs, Htotal.
  assert (Hprev : dnn_cont_features hp + total = deep_input_width hp).
  { unfold deep_input_width. rewrite Htotal, (sum_dims_matches _ _ Hembs0). lia. }
  rewrite Hprev, Hhus. cbn [build_deep].
  destruct (Linear_new_returns (G:=G) (deep_input_width hp) hu Hin Hhu s4)
    as (lin & s5 & Hlin & _).
  exists s5. unfold bind at 1. unfold bind at 1. rewrite Hlin.
  unfold bind at 1. unfold Dropout_new. unfold dropout_ok in Hp.
  destruct (fltb (dnn_dropout hp) f0 || fltb f1 (dnn_dropout hp)); [reflexivity|discriminate].
Qed.

End ConstructorCoverage.



(** ** Batches are scored row by row *)





Section Batches.

Context {F G : Type} `{Scalar F} `{Generator F G}.









End Batches.

Section Modes.

Context {F G : Type} `{Scalar F} `{Generator F G}.
Variable module_name_ok : string -> bool.


(** ** A dropout of zero makes the mode irrelevant *)

Lemma bind_lift_Ok_eq {S A B} (a : A) (k : A -> M S B) (s : S) :
  bind (lift (Ok a)) k s = k a s.
Proof. reflexivity. Qed.

Lemma bind_stateless {S A B} (c : M S A) (k : A -> M S B) (r : result A) (s : S) :
  (forall s, c s = (r, s)) ->
  bind c k s = match r with Ok a => k a s | Raise e => (Raise e, s) end.
Proof. intros Hc. unfold bind. rewrite Hc. destruct r; reflexivity. Qed.

Lemma zero_dropout_draws_nothing (ls : list (Layer F)) :
  forallb zero_dropout ls = true -> forallb draws_nothing ls = true.
Proof.
  induction ls as [|l ls IH]; [reflexivity|]. simpl. intros Hl.
  apply andb_prop in Hl as [Hl Hls]. rewrite (IH Hls), andb_true_r.
  destruct l; simpl in *; [reflexivity| |reflexivity|reflexivity].
  rewrite Hl. apply orb_true_r.
Qed.

Lemma sequential_set_training (mode : bool) (ls : list (Layer F)) (x : Tensor F)
    (s : ModuleState F G) :
  forallb zero_dropout ls = true ->
  sequential (map (set_training mode) ls) x s = sequential ls x s.
Proof.
  revert x s. induction ls as [|l ls IH]; intros x s Hls; [reflexivity|].
  simpl in Hls. apply andb_prop in Hls as [Hl Hls]. cbn [map sequential].
  assert (Hsame : apply_layer (set_training mode l) x s = apply_layer l x s).
  { destruct l as [? ? w b|p training| |]; simpl in *; try reflexivity.
    unfold dropout. rewrite Hl, !orb_true_r. reflexivity. }
  unfold bind. rewrite Hsame.
  destruct (apply_layer l x s) as [[y|e] s1]; [apply IH, Hls | reflexivity].
Qed.

Lemma forward_train_same (m : WideAndDeepModel F) (mode : bool)
    (interactions : list (Z * Z)) (ae : gmap string (list Z)) (cf : option (Tensor F))
    (g g' : G) :
  forallb zero_dropout (deep m) = true ->
  forallb zero_dropout (head m) = true ->
  (forward interactions ae cf (mkState (train mode m) g)).1
  = (forward interactions ae cf (mkState m g')).1.
Proof.
  intros Hdeep Hhead. unfold forward. rewrite !bind_gets.
  cbn [self train hparams n_items users_emb items_emb additional_embs deep head].
  repeat match goal with
  | |- (bind (lift ?r) _ _).1 = _ =>
      destruct r as [?|?]; [rewrite !bind_lift_Ok_eq | reflexivity]
  end.
  assert (Hseq : forall ls x, forallb zero_dropout ls = true ->
            exists r, (forall s : ModuleState F G, sequential ls x s = (r, s))
              /\ forall s : ModuleState F G,
                   sequential (map (set_training mode) ls) x s = (r, s)).
  { intros ls x Hls.
    destruct (stateless_sequential (G:=G) ls x (zero_dropout_draws_nothing _ Hls)) as [r Hr].
    exists r. split; [exact Hr|]. intros s. rewrite sequential_set_training by exact Hls.
    apply Hr. }
  match goal with
  | |- (bind ?c _ _).1 = _ =>
      assert (Hin : exists r, forall s : ModuleState F G, c s = (r, s))
  end.
  { destruct (dnn_cont_features (hparams m) >? 0); [|eexists; reflexivity].
    destruct cf; eexists; reflexivity. }
  destruct Hin as [r Hin]. rewrite !(bind_stateless _ _ r _ Hin).
  destruct r as [deep_input|e]; [|reflexivity].
  destruct (Hseq (deep m) deep_input Hdeep) as (r & Hr1 & Hr2).
  rewrite (bind_stateless _ _ r _ Hr1), (bind_stateless _ _ r _ Hr2).
  destruct r as [deep_output|e]; [|reflexivity].
  match goal with
  | |- (bind (lift ?r) _ _).1 = _ =>
      destruct r as [wd|?]; [rewrite !bind_lift_Ok_eq | reflexivity]
  end.
  destruct (Hseq (head m) wd Hhead) as (r & Hh1 & Hh2).
  rewrite Hh1, Hh2. reflexivity.
Qed.

Lemma build_deep_Ok_zero (p : F) (hus : list Z) (prev : Z) (g g' : G)
    (ls : list (Layer F)) (out : Z) :
  feqb p f0 = true ->
  build_deep p prev hus g = (Ok (ls, out), g') ->
  forallb zero_dropout ls = true.
Proof.
  intros Hp. revert prev g g' ls out.
  induction hus as [|hu hus IH]; intros prev g g' ls out Hdeep.
  - injection Hdeep as <- _ _. reflexivity.
  - cbn [build_deep] in Hdeep.
    apply bind_Ok_inv in Hdeep as (lin & s1 & Hlin & Hdeep).
    apply bind_Ok_inv in Hdeep as (drop & s2 & Hdrop & Hdeep).
    apply bind_Ok_inv in Hdeep as ([layers out'] & s3 & Hrest & Hdeep).
    injection Hdeep as <- _ _.
    apply Linear_new_Ok in Hlin as (w' & b' & ->).
    apply Dropout_new_Ok in Hdrop as ->.
    simpl. rewrite Hp. simpl. eapply IH, Hrest.
Qed.

(** X12. With a dropout probability of zero, the default, the mode of a
    constructed model does not matter: in training mode, in evaluation
    mode and as constructed, [forward] returns the same result on the
    same batch, whatever the state of the generator. *)
Theorem zero_dropout_mode_irrelevant (num_users num_items : Z)
    (hp : WideAndDeepHyperParams F) (g0 g0' : G) (m : WideAndDeepModel F)
    (mode : bool) (interactions : list (Z * Z)) (ae : gmap string (list Z))
    (cf : option (Tensor F)) (g g' : G) :
  __init__ module_name_ok num_users num_items hp g0 = (Ok m, g0') ->
  feqb (dnn_dropout hp) f0 = true ->
  (forward interactions ae cf (mkState (train mode m) g)).1
  = (forward interactions ae cf (mkState m g')).1.
Proof.
  intros Hm Hp.
  apply init_Ok_inv in Hm as (_ & _ & _ & prev & out & g1 & g2 & Hdeep & w & b & Hhead).
  apply forward_train_same.
  - eapply build_deep_Ok_zero; eassumption.
  - rewrite Hhead. reflexivity.
Qed.

End Modes.

Section ShapeErrors.

Context {F G : Type} `{Scalar F} `{Generator F G}.

(** ** Shape and type errors *)



Lemma cat_Ok_or_ShapeError {A} (t0 : Tensor A) (ts : list (Tensor A)) :
  (exists t, cat (t0 :: ts) = Ok t) \/ cat (t0 :: ts) = Raise ShapeError.
Proof.
  revert t0. induction ts as [|t1 ts IH]; intros t0; [left; simpl; eauto|].
  change (cat (t0 :: t1 :: ts)) with (rbind (cat (t1 :: ts)) (fun r => cat2 t0 r)).
  destruct (IH t1) as [[r Hr]|Hr]; rewrite Hr; simpl; [|right; reflexivity].
  unfold cat2. destruct (nrows t0 =? nrows r)%nat; [left; eauto | right; reflexivity].
Qed.

Lemma lookups_shape (m : WideAndDeepModel F) (interactions : list (Z * Z))
    (ae : gmap string (list Z)) :
  wf_model m ->
  indices_ok (users_emb m) (map fst interactions) ->
  indices_ok (items_emb m) (map snd interactions) ->
  Forall (fun ke => exists t, ae !! ke.1 = Some t /\ length t = length interactions
                      /\ indices_ok ke.2 t) (additional_embs m) ->
  exists u i extra all_embed cross,
    embedding (users_emb m) (map fst interactions) = Ok u
    /\ embedding (items_emb m) (map snd interactions) = Ok i
    /\ traverse (fun '(k, emb) => let? t := lookup_key ae k in embedding emb t)
         (additional_embs m) = Ok extra
    /\ cat (u :: i :: extra) = Ok all_embed
    /\ has_shape all_embed (length interactions) (embed_width m)
    /\ cross_product_idx (n_items m) (crossed_feat_dim (hparams m))
         (map fst interactions) (map snd interactions)
       = Ok (map (bucket (n_items m) (crossed_feat_dim (hparams m))) interactions)
    /\ one_hot (map (bucket (n_items m) (crossed_feat_dim (hparams m))) interactions)
         (crossed_feat_dim (hparams m)) = Ok cross
    /\ has_shape cross (length interactions) (Z.to_nat (crossed_feat_dim (hparams m))).
Proof.
  intros (Hue & Hie & Hembs & Hn & [Hcr Hcrmax] & _) Hu Hi Hextra.
  destruct Hue as (_ & _ & Huw & _). destruct Hie as (_ & _ & Hiw & _).
  destruct (embedding_shape _ _ Huw Hu) as (u & Hue & Hus).
  destruct (embedding_shape _ _ Hiw Hi) as (i & Hie & His).
  rewrite !length_map in Hus, His.
  destruct (extra_embeddings_shape _ ae _ Hembs Hextra) as (extra & Hex & Hexs & Hexw).
  destruct (cat_shape u (i :: extra) (length interactions)) as (all_embed & Hall & Halls).
  { destruct Hus as (? & ? & _), His as (? & ? & _). repeat constructor; auto. }
  assert (Hd : in_int64 (crossed_feat_dim (hparams m)) = true).
  { unfold in_int64, int64_min. apply andb_true_intro; split; apply Z.leb_le; lia. }
  destruct (one_hot_shape (map (bucket (n_items m) (crossed_feat_dim (hparams m)))
                             interactions) (crossed_feat_dim (hparams m)) Hcr)
    as (cross & Hcross & Hcs).
  { apply Forall_fmap, Forall_forall. intros ui _. apply bucket_range, Hcr. }
  rewrite length_map in Hcs.
  exists u, i, extra, all_embed, cross.
  repeat (split; [first [assumption | apply cross_product_idx_eq; auto; lia]|]).
  split.
  - unfold embed_width. destruct Hus as (_ & _ & <-), His as (_ & _ & <-).
    rewrite <- Hexw. exact Halls.
  - repeat (split; [first [assumption | apply cross_product_idx_eq; auto; lia]|]).
    assumption.
Qed.


Ltac run_lookups Hu Hi Hex Hall Hidx Hcross :=
  unfold forward; rewrite bind_gets; cbn [self];
  rewrite (bind_lift_Ok _ _ _ _ Hu), (bind_lift_Ok _ _ _ _ Hi),
    (bind_lift_Ok _ _ _ _ Hex), (bind_lift_Ok _ _ _ _ Hall),
    (bind_lift_Ok _ _ _ _ Hidx), (bind_lift_Ok _ _ _ _ Hcross).

(** X13. On a well-formed model with continuous features, a call whose
    indices are valid but which passes no continuous-feature tensor fails
    with the type error of the concatenation of line 85, and leaves the
    module state as it was. *)
Theorem forward_missing_continuous (m : WideAndDeepModel F)
    (interactions : list (Z * Z)) (ae : gmap string (list Z)) (g : G) :
  wf_model m ->
  0 < dnn_cont_features (hparams m) ->
  indices_ok (users_emb m) (map fst interactions) ->
  indices_ok (items_emb m) (map snd interactions) ->
  Forall (fun ke => exists t, ae !! ke.1 = Some t /\ length t = length interactions
                      /\ indices_ok ke.2 t) (additional_embs m) ->
  forward interactions ae None (mkState m g) = (Raise TypeError, mkState m g).
Proof.
  intros Hwf Hpos Hu Hi Hextra.
  destruct (lookups_shape _ _ _ Hwf Hu Hi Hextra)
    as (u & i & extra & all_embed & cross & Hue & Hie & Hex & Hall & _ & Hidx & Hcross & _).
  run_lookups Hue Hie Hex Hall Hidx Hcross.
  destruct (Z.gtb_spec (dnn_cont_features (hparams m)) 0); [reflexivity | lia].
Qed.

Lemma sequential_wrong_width (ls : list (Layer F)) (x : Tensor F) (n c inw outw : nat) :
  chain ls inw outw -> has_shape x n c -> c <> inw ->
  forall s : ModuleState F G,
    (exists s', sequential ls x s = (Raise ShapeError, s'))
    \/ (exists y s', sequential ls x s = (Ok y, s') /\ has_shape y n c /\ inw = outw).
Proof.
  revert x inw. induction ls as [|l ls IH]; intros x inw Hchain Hx Hne s.
  - right. exists x, s. simpl in Hchain. auto.
  - cbn [sequential].
    destruct l as [? ? w b|p training| |]; simpl in Hchain.
    + left. exists s. destruct Hchain as (_ & Hwc & _). destruct Hx as (_ & _ & Hxc).
      unfold bind; simpl. unfold lift, linear.
      destruct (Nat.eqb_spec (ncols x) (ncols w)); [congruence | reflexivity].
    + destruct Hchain as [Hp Hchain].
      destruct (dropout_returns (G:=G) p training x n c Hp Hx s) as (y & s1 & Hy & Hys).
      unfold bind. simpl. rewrite Hy. exact (IH _ _ Hchain Hys Hne s1).
    + unfold bind. simpl. exact (IH _ _ Hchain (tmap_shape frelu _ _ _ Hx) Hne s).
    + unfold bind. simpl. exact (IH _ _ Hchain (tmap_shape fsigmoid _ _ _ Hx) Hne s).
Qed.

(** X14. On a well-formed model with continuous features, a
    continuous-feature matrix that does not have one row per example and
    [dnn_cont_features] columns makes the call fail with a shape error: at
    the concatenation of line 85 for the rows, at the first linear layer
    that meets the rows, in the deep stack or in the head, for the
    columns. *)
Theorem forward_continuous_shape_error (m : WideAndDeepModel F)
    (interactions : list (Z * Z)) (ae : gmap string (list Z)) (c : Tensor F) (g : G) :
  wf_model m ->
  0 < dnn_cont_features (hparams m) ->
  indices_ok (users_emb m) (map fst interactions) ->
  indices_ok (items_emb m) (map snd interactions) ->
  Forall (fun ke => exists t, ae !! ke.1 = Some t /\ length t = length interactions
                      /\ indices_ok ke.2 t) (additional_embs m) ->
  wf_tensor c ->
  nrows c <> length interactions
  \/ ncols c <> Z.to_nat (dnn_cont_features (hparams m)) ->
  exists s', forward interactions ae (Some c) (mkState m g) = (Raise ShapeError, s').
Proof.
  intros Hwf Hpos Hu Hi Hextra Hc Hbad.
  destruct (lookups_shape _ _ _ Hwf Hu Hi Hextra)
    as (u & i & extra & all_embed & cross & Hue & Hie & Hex & Hall & Halls
        & Hidx & Hcross & Hcs).
  destruct Hwf as (_ & _ & _ & _ & _ & _ & dout & Hdeep
                   & inf & outf & w & b & Hhd & (_ & _ & Hwc) & _).
  run_lookups Hue Hie Hex Hall Hidx Hcross.
  destruct (Z.gtb_spec (dnn_cont_features (hparams m)) 0); [|lia].
  destruct (Nat.eq_dec (nrows c) (length interactions)) as [Hrows|Hrows].
  - destruct Hbad as [Hbad|Hbad]; [contradiction|].
    destruct (cat_shape c [all_embed] (length interactions)) as (x & Hx & Hxs).
    { destruct Halls as (? & ? & _). repeat constructor; auto. }
    rewrite (bind_lift_Ok _ _ _ _ Hx).
    simpl in Hxs. destruct Halls as (_ & _ & Hac). rewrite Hac, Nat.add_0_r in Hxs.
    assert (Hne : (ncols c + embed_width m)%nat
                  <> (Z.to_nat (dnn_cont_features (hparams m)) + embed_width m)%nat) by lia.
    destruct (sequential_wrong_width _ _ _ _ _ _ Hdeep Hxs Hne (mkState m g))
      as [[s' Hr]|(y & s' & Hy & Hys & Hio)].
    + exists s'. unfold bind at 1. rewrite Hr. reflexivity.
    + unfold bind at 1. rewrite Hy.
      destruct (cat_shape (tmap of_int cross) [y] (length interactions)) as (wd & Hwd & Hwds).
      { pose proof (tmap_shape of_int _ _ _ Hcs) as (? & ? & _).
        destruct Hys as (? & ? & _). repeat constructor; auto. }
      rewrite (bind_lift_Ok _ _ _ _ Hwd). rewrite Hhd. cbn [sequential apply_layer].
      exists s'. unfold bind, lift, linear. simpl.
      simpl in Hwds. destruct Hwds as (_ & _ & Hwdc).
      destruct Hcs as (_ & _ & Hcc), Hys as (_ & _ & Hyc).
      destruct (Nat.eqb_spec (ncols wd) (ncols w)); [lia | reflexivity].
  - exists (mkState m g). apply bind_lift_Raise.
    change (cat [c; all_embed]) with (rbind (Ok all_embed) (fun r => cat2 c r)).
    simpl. unfold cat2. destruct Halls as (_ & Har & _).
    destruct (Nat.eqb_spec (nrows c) (nrows all_embed)); [congruence | reflexivity].
Qed.

(** X15. When every declared additional feature is supplied with indices
    inside its table but one of the index tensors does not have the length
    of the batch, [forward] fails with a shape error at the concatenation
    of line 74 and leaves the module state as it was. *)
Theorem forward_additional_length_error (m : WideAndDeepModel F)
    (interactions : list (Z * Z)) (ae : gmap string (list Z))
    (cf : option (Tensor F)) (g : G) :
  indices_ok (users_emb m) (map fst interactions) ->
  indices_ok (items_emb m) (map snd interactions) ->
  Forall (fun ke => exists t, ae !! ke.1 = Some t /\ indices_ok ke.2 t)
    (additional_embs m) ->
  Exists (fun ke => exists t, ae !! ke.1 = Some t /\ length t <> length interactions)
    (additional_embs m) ->
  forward interactions ae cf (mkState m g) = (Raise ShapeError, mkState m g).
Proof.
  intros Hu Hi Hextra Hbad.
  destruct (embedding_total _ _ Hu) as [u Hue].
  destruct (embedding_total _ _ Hi) as [i Hie].
  destruct (traverse_Forall2
              (fun '(k, emb) => let? t := lookup_key ae k in embedding emb t)
              (fun ke t => forall idx, ae !! ke.1 = Some idx -> nrows t = length idx)
              (additional_embs m)) as (extra & Hex & Hrows).
  { eapply Forall_impl; [exact Hextra|]. intros [k e] (t & Ht & Hidx).
    simpl in Ht, Hidx. destruct (embedding_total _ _ Hidx) as [r Hr].
    exists r. unfold lookup_key. rewrite Ht. simpl. split; [exact Hr|].
    intros idx Heq. simpl in Heq. rewrite Ht in Heq. injection Heq as <-.
    apply embedding_Ok_shape in Hr as [-> _]. reflexivity. }
  unfold forward. rewrite bind_gets. cbn [self].
  rewrite (bind_lift_Ok _ _ _ _ Hue), (bind_lift_Ok _ _ _ _ Hie),
    (bind_lift_Ok _ _ _ _ Hex).
  destruct (cat_Ok_or_ShapeError u (i :: extra)) as [[all_embed Hall]|Hall];
    [|exact (bind_lift_Raise _ _ _ _ Hall)].
  exfalso. apply cat_Ok_nrows in Hall. apply Forall_cons in Hall as [_ Hall].
  apply embedding_Ok_shape in Hue as [Hur _]. rewrite length_map in Hur.
  clear -Hrows Hall Hbad Hur.
  induction Hrows as [|ke t embs extra Ht _ IH].
  - inversion Hbad.
  - apply Forall_cons in Hall as [Hrow Hall].
    apply Exists_cons in Hbad as [(idx & Hidx & Hlen)|Hbad]; [|exact (IH Hbad Hall)].
    specialize (Ht idx Hidx). congruence.
Qed.

End ShapeErrors.

(** ** Runs on concrete models *)

Import Exact.

(** In training mode a dropout with a non-zero probability makes the result
    depend on the generator: the hypothesis of evaluation mode in the
    determinism theorem cannot be dropped. *)
Example training_dropout_is_random :
  exists m g',
    construct hp_small 2%N = (Ok m, g')
    /\ (forward [(3, 4)] ∅ None (mkState m 1%N)).1
       <> (forward [(3, 4)] ∅ None (mkState m 2%N)).1.
Proof.
  eexists _, _. split; [vm_compute; reflexivity|]. vm_compute. discriminate.
Qed.

(** C4 as first stated fails: in the stack built for two hidden widths the
    last linear layer is at position 3 and the layer at position 4 is a
    dropout. *)
Lemma dropout_follows_last_linear :
  exists m g',
    construct hp_small 2%N = (Ok m, g')
    /\ last_linear (deep m) 0 = Some 3%nat
    /\ ~ no_dropout_after_last (deep m).
Proof.
  eexists _, _. split; [vm_compute; reflexivity|]. split; [reflexivity|].
  intros Hno. specialize (Hno 3%nat _ eq_refl eq_refl). discriminate Hno.
Qed.

(** The stack built for the hidden widths 4 and 2. *)
Lemma deep_stack_layout_witness :
  exists m g',
    construct hp_small 2%N = (Ok m, g')
    /\ length (deep m) = 6%nat
    /\ length (filter (fun l => is_linear l = true) (deep m)) = 2%nat
    /\ (forall i hu, [4; 2] !! i = Some hu ->
          exists inf w b,
            deep m !! (3 * i)%nat = Some (Linear inf hu w b)
            /\ deep m !! (3 * i + 1)%nat = Some (Dropout (1 # 2)%Q true)
            /\ deep m !! (3 * i + 2)%nat = Some ReLU)
    /\ (exists inf w b, head m = [Linear inf 1 w b; Sigmoid]).
Proof.
  eexists _, _. split; [vm_compute; reflexivity|].
  eapply (deep_stack_layout name_ok 10 5 hp_small 2%N).
  vm_compute. reflexivity.
Defined.

(** No hidden layer, one additional feature, two continuous features. *)
Lemma empty_hidden_units_witness :
  dnn_hidden_units hp_flat = []
  /\ valid_config name_ok 10 5 hp_flat = true
  /\ exists m g',
       construct hp_flat 2%N = (Ok m, g')
       /\ deep m = []
       /\ (forall x (s : ModuleState Q N), sequential (deep m) x s = (Ok x, s))
       /\ forall mode interactions ae cf (g0 : N),
            valid_batch m interactions ae cf ->
            exists out s',
              forward interactions ae cf (mkState (train mode m) g0) = (Ok out, s')
              /\ has_shape out (length interactions) 1.
Proof.
  split; [reflexivity|]. split; [vm_compute; reflexivity|].
  apply (empty_hidden_units name_ok 10 5 hp_flat 2%N); vm_compute; reflexivity.
Defined.

(** The scenario of the specification: a model declaring the feature
    [genre] with 20 values and width 4, called without it. *)
Lemma forward_missing_key_witness :
  exists m g',
    construct hp_genre 2%N = (Ok m, g')
    /\ "genre"%string ∈ map fst (additional_embs m)
    /\ (∅ : gmap string (list Z)) !! "genre"%string = None
    /\ (forall out s', forward [(3, 4)] ∅ None (mkState m g') <> (Ok out, s'))
    /\ (indices_ok (users_emb m) (map fst [(3, 4)]) ->
        indices_ok (items_emb m) (map snd [(3, 4)]) ->
        Forall (fun ke => forall t, (∅ : gmap string (list Z)) !! ke.1 = Some t
                                    -> indices_ok ke.2 t) (additional_embs m) ->
        exists k', k' ∈ map fst (additional_embs m)
          /\ (∅ : gmap string (list Z)) !! k' = None
          /\ forward [(3, 4)] ∅ None (mkState m g')
             = (Raise (KeyError k'), mkState m g')).
Proof.
  eexists _, _. split; [vm_compute; reflexivity|].
  split; [left|]. split; [reflexivity|].
  apply (forward_missing_key _ [(3, 4)] ∅ None _ "genre"%string); [left | reflexivity].
Defined.

Example scenario_missing_genre :
  exists m g',
    construct hp_genre 2%N = (Ok m, g')
    /\ forward [(3, 4)] ∅ None (mkState m g')
       = (Raise (KeyError "genre"), mkState m g').
Proof.
  eexists _, _. split; [vm_compute; reflexivity|]. vm_compute. reflexivity.
Qed.

(** A model with two continuous features, called without them. *)
Lemma forward_requires_continuous_witness :
  exists m g',
    construct hp_cont 2%N = (Ok m, g')
    /\ wf_model m
    /\ 0 < dnn_cont_features (hparams m)
    /\ (exists e, forward [(3, 4)] ∅ None (mkState m g') = (Raise e, mkState m g'))
    /\ (forall cf out s',
          forward [(3, 4)] ∅ cf (mkState m g') = (Ok out, s') ->
          exists c, cf = Some c /\ nrows c = 1%nat /\ ncols c = 2%nat).
Proof.
  eexists _, _. split; [vm_compute; reflexivity|].
  match goal with
  | |- wf_model ?m /\ _ =>
      assert (Hwf : wf_model m)
        by (eapply (init_built name_ok 10 5 hp_cont 2%N); vm_compute; reflexivity)
  end.
  split; [exact Hwf|]. split; [simpl; lia|].
  apply (forward_requires_continuous _ [(3, 4)] ∅ _ Hwf). simpl. lia.
Defined.

Example scenario_missing_continuous :
  exists m g',
    construct hp_cont 2%N = (Ok m, g')
    /\ forward [(3, 4)] ∅ None (mkState m g') = (Raise TypeError, mkState m g').
Proof.
  eexists _, _. split; [vm_compute; reflexivity|]. vm_compute. reflexivity.
Qed.

(** A model without continuous features on a batch of two rows. *)
Lemma forward_without_continuous_witness :
  exists m g',
    construct hp_small 2%N = (Ok m, g')
    /\ wf_model m
    /\ dnn_cont_features (hparams m) = 0
    /\ valid_batch m [(3, 4); (0, 0)] ∅ None
    /\ (exists out s',
          forward [(3, 4); (0, 0)] ∅ None (mkState m g') = (Ok out, s')
          /\ has_shape out 2 1)
    /\ (forall c, forward [(3, 4); (0, 0)] ∅ (Some c) (mkState m g')
                  = forward [(3, 4); (0, 0)] ∅ None (mkState m g')).
Proof.
  eexists _, _. split; [vm_compute; reflexivity|].
  match goal with
  | |- wf_model ?m /\ _ =>
      assert (Hwf : wf_model m)
        by (eapply (init_built name_ok 10 5 hp_small 2%N); vm_compute; reflexivity);
      assert (Hvalid : valid_batch m [(3, 4); (0, 0)] ∅ None)
  end.
  { unfold valid_batch, indices_ok. simpl.
    split; [repeat constructor; lia|]. split; [repeat constructor; lia|].
    split; [constructor|]. lia. }
  split; [exact Hwf|]. split; [reflexivity|]. split; [exact Hvalid|].
  apply (forward_without_continuous _ [(3, 4); (0, 0)] ∅ _ Hwf eq_refl Hvalid).
Defined.

(** ** More runs on concrete models *)

Ltac built hp :=
  match goal with
  | |- wf_model ?m /\ _ =>
      assert (Hwf : wf_model m)
        by (eapply (init_built name_ok 10 5 hp 2%N); vm_compute; reflexivity)
  end.

(** A model with the feature [genre], in training mode, on two rows. *)
Lemma forward_scores_shape_witness :
  exists m g',
    construct hp_genre 2%N = (Ok m, g')
    /\ wf_model m
    /\ valid_batch m [(3, 4); (0, 0)] {[ "genre"%string := [1; 19] ]} None
    /\ exists out s' y,
         forward [(3, 4); (0, 0)] {[ "genre"%string := [1; 19] ]} None
           (mkState (train true m) g') = (Ok out, s')
         /\ has_shape out 2 1
         /\ out = tmap fsigmoid y.
Proof.
  eexists _, _. split; [vm_compute; reflexivity|].
  built hp_genre.
  match goal with
  | |- _ /\ ?V /\ _ => assert (Hvalid : V)
  end.
  { unfold valid_batch, indices_ok. simpl.
    split; [repeat constructor; lia|]. split; [repeat constructor; lia|].
    split; [|lia]. constructor; [|constructor].
    exists [1; 19]. split; [reflexivity|]. split; [reflexivity|].
    repeat constructor; simpl; lia. }
  split; [exact Hwf|]. split; [exact Hvalid|].
  exact (forward_scores_shape _ true _ _ None _ Hwf Hvalid).
Defined.

(** Without additional features or continuous features: a valid batch. *)
Lemma forward_succeeds_iff_valid_witness :
  exists m g',
    construct hp_small 2%N = (Ok m, g')
    /\ wf_model m
    /\ (forall c : Tensor Q, None = Some c -> wf_tensor c)
    /\ ((exists out s', forward [(3, 4)] ∅ None (mkState m g') = (Ok out, s'))
        <-> valid_batch m [(3, 4)] ∅ None).
Proof.
  eexists _, _. split; [vm_compute; reflexivity|].
  built hp_small.
  split; [exact Hwf|]. split; [discriminate|].
  apply (forward_succeeds_iff_valid _ [(3, 4)] ∅ None _ Hwf). discriminate.
Defined.

(** User 10 in a model with 10 users. *)
Lemma forward_index_error_witness :
  exists m g',
    construct hp_small 2%N = (Ok m, g')
    /\ Forall (fun ke => is_Some ((∅ : gmap string (list Z)) !! ke.1)) (additional_embs m)
    /\ ~ (indices_ok (users_emb m) (map fst [(10, 0)])
          /\ indices_ok (items_emb m) (map snd [(10, 0)])
          /\ Forall (fun ke => forall t, (∅ : gmap string (list Z)) !! ke.1 = Some t
                                         -> indices_ok ke.2 t) (additional_embs m))
    /\ forward [(10, 0)] ∅ None (mkState m g') = (Raise IndexError, mkState m g').
Proof.
  eexists _, _. split; [vm_compute; reflexivity|].
  match goal with
  | |- ?K /\ ?B /\ _ => assert (Hkeys : K) by constructor; assert (Hbad : B)
  end.
  { intros [Hu _]. unfold indices_ok in Hu. simpl in Hu.
    apply Forall_cons in Hu as [[_ Hu] _]. vm_compute in Hu. discriminate. }
  split; [exact Hkeys|]. split; [exact Hbad|].
  exact (forward_index_error _ [(10, 0)] ∅ None _ Hkeys Hbad).
Defined.

(** An undeclared key next to the declared one. *)
Lemma forward_reads_declared_keys_witness :
  exists m g',
    construct hp_genre 2%N = (Ok m, g')
    /\ (forall k, k ∈ map fst (additional_embs (self (mkState m g'))) ->
          ({[ "genre"%string := [1] ]} : gmap string (list Z)) !! k
          = (<[ "year"%string := [7] ]> {[ "genre"%string := [1] ]}
              : gmap string (list Z)) !! k)
    /\ forward [(3, 4)] {[ "genre"%string := [1] ]} None (mkState m g')
       = forward [(3, 4)] (<[ "year"%string := [7] ]> {[ "genre"%string := [1] ]})
           None (mkState m g').
Proof.
  eexists _, _. split; [vm_compute; reflexivity|].
  match goal with
  | |- ?A /\ _ => assert (Hagree : A)
  end.
  { intros k Hk. simpl in Hk. apply list_elem_of_singleton in Hk as ->. reflexivity. }
  split; [exact Hagree|].
  exact (forward_reads_declared_keys [(3, 4)] _ _ None _ Hagree).
Defined.

(** A model constructed with [crossed_feat_dim = 0]. *)
Lemma forward_zero_buckets_witness :
  exists m g',
    construct hp_zero 2%N = (Ok m, g')
    /\ crossed_feat_dim (hparams m) = 0
    /\ in_int64 (n_items m) = true
    /\ [(3, 4)] <> ([] : list (Z * Z))
    /\ valid_batch m [(3, 4)] ∅ None
    /\ forward [(3, 4)] ∅ None (mkState m g') = (Raise ZeroDivisionError, mkState m g').
Proof.
  eexists _, _. split; [vm_compute; reflexivity|].
  match goal with
  | |- _ /\ _ /\ _ /\ ?V /\ _ => assert (Hvalid : V)
  end.
  { unfold valid_batch, indices_ok. simpl.
    split; [repeat constructor; lia|]. split; [repeat constructor; lia|].
    split; [constructor|]. lia. }
  split; [reflexivity|]. split; [reflexivity|]. split; [discriminate|].
  split; [exact Hvalid|].
  apply forward_zero_buckets; first [exact Hvalid | reflexivity | discriminate].
Defined.

(** Ten users, five items and fifty buckets. *)
Lemma cross_index_injective_witness :
  0 <= 3 < 10 /\ 0 <= 4 < 5 /\ 10 * 5 <= 50 <= int64_max
  /\ cross_product_idx 5 50 [3; 3] [4; 4] = Ok [19; 19]
  /\ 3 = 3 /\ 4 = 4.
Proof.
  assert (Hmax : 10 * 5 <= 50 <= int64_max) by (unfold int64_max; lia).
  split; [lia|]. split; [lia|]. split; [exact Hmax|]. split; [reflexivity|].
  apply (cross_index_injective 10 5 50 3 4 3 4 19 19); first [lia | exact Hmax | reflexivity].
Defined.

(** The constructor on the model with the feature [genre]. *)
Lemma constructor_tables_witness :
  exists m g',
    construct hp_genre 2%N = (Ok m, g')
    /\ hparams m = hp_genre /\ n_users m = 10 /\ n_items m = 5
    /\ has_shape (weight (users_emb m)) 10 2
    /\ has_shape (weight (items_emb m)) 5 3
    /\ Forall2 (fun kv ke =>
                  ke.1 = kv.1
                  /\ has_shape (weight ke.2) (Z.to_nat kv.2.1) (Z.to_nat kv.2.2))
         [("genre"%string, (20, 4))] (additional_embs m).
Proof.
  eexists _, _. split; [vm_compute; reflexivity|].
  eapply (constructor_tables name_ok 10 5 hp_genre 2%N). vm_compute. reflexivity.
Defined.

Lemma constructor_layer_shapes_witness :
  exists m g',
    construct hp_genre 2%N = (Ok m, g')
    /\ (forall i hu, [4; 2] !! i = Some hu ->
          exists inf w b,
            (deep_input_width hp_genre :: [4; 2]) !! i = Some inf
            /\ deep m !! (3 * i)%nat = Some (Linear inf hu w b)
            /\ has_shape w (Z.to_nat hu) (Z.to_nat inf)
            /\ length b = Z.to_nat hu)
    /\ exists w b,
         head m = [Linear (7 + deep_output_width hp_genre) 1 w b; Sigmoid]
         /\ has_shape w 1 (Z.to_nat (7 + deep_output_width hp_genre))
         /\ length b = 1%nat.
Proof.
  eexists _, _. split; [vm_compute; reflexivity|].
  eapply (constructor_layer_shapes name_ok 10 5 hp_genre 2%N). vm_compute. reflexivity.
Defined.

(** The constructor accepts a bucket count of zero. *)
Example constructor_accepts_zero_buckets :
  accepted_config name_ok 10 5 hp_zero = true
  /\ exists m g', construct hp_zero 2%N = (Ok m, g').
Proof. split; [reflexivity|]. eexists _, _. vm_compute. reflexivity. Qed.

(** A dropout probability of 3/2 with two hidden layers. *)
Lemma constructor_rejects_dropout_witness :
  dnn_hidden_units hp_bad_dropout = [4; 2]
  /\ dropout_ok (dnn_dropout hp_bad_dropout) = false
  /\ exists g', construct hp_bad_dropout 2%N = (Raise ValueError, g').
Proof.
  split; [reflexivity|]. split; [reflexivity|].
  apply (constructor_rejects_dropout name_ok 10 5 hp_bad_dropout 4 [2] 2%N);
    reflexivity.
Defined.


(** The default dropout of zero: training mode against the model as
    constructed. *)
Lemma zero_dropout_mode_irrelevant_witness :
  exists m g',
    construct hp_genre 2%N = (Ok m, g')
    /\ feqb (dnn_dropout hp_genre) f0 = true
    /\ (forward [(3, 4)] {[ "genre"%string := [1] ]} None (mkState (train false m) 5%N)).1
       = (forward [(3, 4)] {[ "genre"%string := [1] ]} None (mkState m 8%N)).1.
Proof.
  eexists _, _. split; [vm_compute; reflexivity|]. split; [reflexivity|].
  eapply (zero_dropout_mode_irrelevant name_ok 10 5 hp_genre 2%N);
    [vm_compute; reflexivity | reflexivity].
Defined.

(** Two continuous features declared, none passed. *)
Lemma forward_missing_continuous_witness :
  exists m g',
    construct hp_cont 2%N = (Ok m, g')
    /\ wf_model m
    /\ 0 < dnn_cont_features (hparams m)
    /\ forward [(3, 4)] ∅ None (mkState m g') = (Raise TypeError, mkState m g').
Proof.
  eexists _, _. split; [vm_compute; reflexivity|].
  built hp_cont.
  split; [exact Hwf|]. split; [simpl; lia|].
  apply (forward_missing_continuous _ [(3, 4)] ∅ _ Hwf); [simpl; lia|..].
  - unfold indices_ok. simpl. repeat constructor; lia.
  - unfold indices_ok. simpl. repeat constructor; lia.
  - constructor.
Defined.

(** Two continuous features declared, a matrix of three columns passed. *)
Lemma forward_continuous_shape_error_witness :
  exists m g',
    construct hp_cont 2%N = (Ok m, g')
    /\ wf_model m
    /\ wf_tensor (mkTensor 3 [[1; 2; 3]]%Q)
    /\ ncols (mkTensor 3 [[1; 2; 3]]%Q) <> Z.to_nat (dnn_cont_features (hparams m))
    /\ exists s', forward [(3, 4)] ∅ (Some (mkTensor 3 [[1; 2; 3]]%Q)) (mkState m g')
                  = (Raise ShapeError, s').
Proof.
  eexists _, _. split; [vm_compute; reflexivity|].
  built hp_cont.
  assert (Hc : wf_tensor (mkTensor 3 [[1; 2; 3]]%Q)) by (repeat constructor).
  split; [exact Hwf|]. split; [exact Hc|]. split; [simpl; lia|].
  apply (forward_continuous_shape_error _ [(3, 4)] ∅ _ _ Hwf); [simpl; lia|..].
  - unfold indices_ok. simpl. repeat constructor; lia.
  - unfold indices_ok. simpl. repeat constructor; lia.
  - constructor.
  - exact Hc.
  - right. simpl. lia.
Defined.

(** One row in the batch, two indices for [genre]. *)
Lemma forward_additional_length_error_witness :
  exists m g',
    construct hp_genre 2%N = (Ok m, g')
    /\ Exists (fun ke => exists t,
                 ({[ "genre"%string := [1; 2] ]} : gmap string (list Z)) !! ke.1 = Some t
                 /\ length t <> length [(3, 4)]) (additional_embs m)
    /\ forward [(3, 4)] {[ "genre"%string := [1; 2] ]} None (mkState m g')
       = (Raise ShapeError, mkState m g').
Proof.
  eexists _, _. split; [vm_compute; reflexivity|].
  match goal with
  | |- ?E /\ _ => assert (Hbad : E)
  end.
  { left. exists [1; 2]. split; [reflexivity | simpl; lia]. }
  split; [exact Hbad|].
  apply (forward_additional_length_error _ [(3, 4)] _ None).
  - unfold indices_ok. simpl. repeat constructor; lia.
  - unfold indices_ok. simpl. repeat constructor; lia.
  - constructor; [|constructor]. exists [1; 2]. split; [reflexivity|].
    unfold indices_ok. simpl. repeat constructor; lia.
  - exact Hbad.
Defined.
